(** * rosmsg_to_asn1: translation of ROS message definitions to ASN.1 modules

    A shallow embedding of [scripts/rosmsg_to_asn1.py] and the properties of
    its type mapping, field classification, record translation and worklist
    driver.

    Conventions of the embedding:
    - Python [str] is [string] (ASCII), Python [int] is [Z];
    - a Python [dict] is an association list in insertion order (the
      iteration order of a dict), a Python [list] is a [list] read with
      stdpp's [!!] and written with [<[i:=x]>], an index out of range being
      an [IndexError] written out at each access;
    - an uncaught Python exception is the [Raise] branch of [res];
    - the list [obj.__slots__] of a message class is shared between the class
      and the dictionary built by [get_message_dict]; the functions that
      write to it return its new contents. *)

From Stdlib Require Import ZArith String Ascii List Bool Lia DecimalString.
From Stdlib Require DecimalPos.
From stdpp Require Import base list.
Import ListNotations.

Local Open Scope string_scope.
Local Open Scope Z_scope.

(** ** Exceptions and results *)

(** The exceptions that reach the top level; [ResourceNotFound] is the one
    [rospkg] raises for an unknown package. *)
Inductive exn : Type := KeyError | IndexError | ValueError | ResourceNotFound.

Inductive res (A : Type) : Type :=
| Ok (a : A)
| Raise (e : exn).
Arguments Ok {A} a.
Arguments Raise {A} e.

#[global] Instance res_ret : MRet res := fun A a => Ok a.
#[global] Instance res_bind : MBind res := fun A B f m =>
  match m with
  | Ok a => f a
  | Raise e => Raise e
  end.

(** ** The Python string and list operations the script uses *)

Module Py.

(** [s.find(c)] for a one-character [c]: the first index, or -1. *)
Fixpoint find_from (c : ascii) (s : string) (i : Z) : Z :=
  match s with
  | EmptyString => -1
  | String a s' => if Ascii.eqb a c then i else find_from c s' (i + 1)
  end.

Definition find (c : ascii) (s : string) : Z := find_from c s 0.

(** [c in s] for a one-character [c]. *)
Definition contains (c : ascii) (s : string) : bool := negb (find c s =? -1).

Definition len (s : string) : Z := Z.of_nat (String.length s).

(** [s[i]]: negative indices count from the end, out of range raises. *)
Definition get (s : string) (i : Z) : res ascii :=
  let j := if i <? 0 then i + len s else i in
  if j <? 0 then Raise IndexError
  else match String.get (Z.to_nat j) s with
       | Some a => Ok a
       | None => Raise IndexError
       end.

(** [s[lo:hi]]: negative bounds count from the end, then both are clamped. *)
Definition clamp (s : string) (i : Z) : Z :=
  let j := if i <? 0 then i + len s else i in
  Z.max 0 (Z.min j (len s)).

Definition slice (s : string) (lo hi : Z) : string :=
  let l := clamp s lo in
  let h := clamp s hi in
  if h <=? l then EmptyString
  else String.substring (Z.to_nat l) (Z.to_nat (h - l)) s.

(** [s.split(c)] for a one-character separator. *)
Fixpoint split (sep : ascii) (s : string) : list string :=
  match s with
  | EmptyString => [EmptyString]
  | String a s' =>
      if Ascii.eqb a sep then EmptyString :: split sep s'
      else match split sep s' with
           | w :: ws => String a w :: ws
           | [] => [String a EmptyString]
           end
  end.

(** [s.replace(a, b)] for one-character [a] and [b]. *)
Fixpoint replace (a b : ascii) (s : string) : string :=
  match s with
  | EmptyString => EmptyString
  | String c s' => String (if Ascii.eqb c a then b else c) (replace a b s')
  end.

Definition lower_ascii (c : ascii) : ascii :=
  let n := nat_of_ascii c in
  if ((65 <=? n) && (n <=? 90))%nat then ascii_of_nat (n + 32) else c.

(** [s.lower()]. *)
Fixpoint lower (s : string) : string :=
  match s with
  | EmptyString => EmptyString
  | String c s' => String (lower_ascii c) (lower s')
  end.

(** [str(n)] for an integer. *)
Definition str (n : Z) : string := NilZero.string_of_int (Z.to_int n).

(** [int(s)]: surrounding white space is dropped, then an optional sign and
    decimal digits, where single underscores may separate digits.  The
    white space of [int] is the space and the characters 9 to 13. *)
Definition is_space (c : ascii) : bool :=
  let n := nat_of_ascii c in
  (((9 <=? n) && (n <=? 13)) || (n =? 32))%nat.

Definition digit_of (c : ascii) : option Z :=
  let n := nat_of_ascii c in
  if ((48 <=? n) && (n <=? 57))%nat then Some (Z.of_nat (n - 48)) else None.

Fixpoint lstrip (s : string) : string :=
  match s with
  | String c s' => if is_space c then lstrip s' else s
  | EmptyString => EmptyString
  end.

Fixpoint rstrip (s : string) : string :=
  match s with
  | EmptyString => EmptyString
  | String c s' =>
      match rstrip s' with
      | EmptyString => if is_space c then EmptyString else String c EmptyString
      | r => String c r
      end
  end.

Definition strip (s : string) : string := rstrip (lstrip s).

(** The digits of [s] after the first one: [acc] is the value read so far,
    [after_digit] tells whether the previous character was a digit. *)
Fixpoint digits (s : string) (acc : Z) (after_digit : bool) : option Z :=
  match s with
  | EmptyString => if after_digit then Some acc else None
  | String c s' =>
      match digit_of c with
      | Some d => digits s' (10 * acc + d) true
      | None =>
          if Ascii.eqb c "_" && after_digit then digits s' acc false
          else None
      end
  end.

Definition unsigned (s : string) : option Z :=
  match s with
  | EmptyString => None
  | String c _ =>
      match digit_of c with
      | Some _ => digits s 0 false
      | None => None
      end
  end.

Definition int (s : string) : res Z :=
  let t := strip s in
  let r := match t with
           | String "-" t' => option_map Z.opp (unsigned t')
           | String "+" t' => unsigned t'
           | _ => unsigned t
           end in
  match r with
  | Some n => Ok n
  | None => Raise ValueError
  end.

(** [x in l] for a list of strings. *)
Definition mem (x : string) (l : list string) : bool :=
  existsb (String.eqb x) l.

(** [l[i]] for a list. *)
Definition nth {A} (l : list A) (i : nat) : res A :=
  match l !! i with
  | Some a => Ok a
  | None => Raise IndexError
  end.

(** [enumerate(l)]. *)
Definition enumerate {A} (l : list A) : list (nat * A) :=
  combine (seq 0 (length l)) l.

End Py.

(** ** Dictionaries with string keys, in insertion order *)

Module Dict.

Definition t (V : Type) : Type := list (string * V).

Fixpoint get {V} (d : t V) (k : string) : res V :=
  match d with
  | [] => Raise KeyError
  | (k', v) :: d' => if String.eqb k' k then Ok v else get d' k
  end.

Fixpoint has {V} (d : t V) (k : string) : bool :=
  match d with
  | [] => false
  | (k', _) :: d' => String.eqb k' k || has d' k
  end.

(** [d[k] = v]: a present key keeps its place, a new one goes last. *)
Fixpoint set {V} (d : t V) (k : string) (v : V) : t V :=
  match d with
  | [] => [(k, v)]
  | (k', v') :: d' =>
      if String.eqb k' k then (k', v) :: d' else (k', v') :: set d' k v
  end.

Definition keys {V} (d : t V) : list string := map fst d.

End Dict.

(** ** The static tables *)

Definition nl : string := String (ascii_of_nat 10) EmptyString.
Definition tab : string := String (ascii_of_nat 9) EmptyString.

Definition ros_primitive_type : list string :=
  ["bool"; "int8"; "uint8"; "int16"; "uint16"; "int32"; "uint32"; "int64";
   "uint64"; "float32"; "float64"; "string"; "time"; "duration"].

Definition primitive_types_map : Dict.t string :=
  [("bool", "T-Boolean"); ("int8", "T-Int8"); ("uint8", "T-UInt8");
   ("int16", "T-Int16"); ("uint16", "T-UInt16"); ("int32", "T-Int32");
   ("uint32", "T-UInt32"); ("int64", "T-Int64"); ("uint64", "T-UInt64");
   ("float32", "T-Float"); ("float64", "T-Double"); ("string", "T-String");
   ("time", "Time"); ("duration", "Duration"); ("byte", "T-Int8");
   ("char", "T-Uint8")].

(** [libraries] is filled by three loops, one per library. *)
Definition set_all (lib : string) (keys : list string) (d : Dict.t string)
  : Dict.t string :=
  fold_left (fun d key => Dict.set d key lib) keys d.

Definition libraries : Dict.t string :=
  let d := [] in
  let d := set_all "TASTE-BasicTypes"
             ["T_Boolean"; "T-Int8"; "T-Uint8"; "T-Int32"; "T-UInt32"] d in
  let d := set_all "TASTE-ExtendedTypes"
             ["T-Int16"; "T-Uint16"; "T-Int64"; "T-Uint64"; "T-Float";
              "T-Double"; "T-String"] d in
  let d := set_all "Time-Types" ["Time"; "Duration"] d in
  d.

(** [ErrorCodes]. *)
Inductive ErrorCodes : Type := ARGS_ERROR | SYSCMD_ERROR | OK.

Definition value (c : ErrorCodes) : Z :=
  match c with
  | ARGS_ERROR => 1
  | SYSCMD_ERROR => 2
  | OK => 0
  end.

(** ** find_field_type *)

(** The tags ["simple"], ["variable-length"] and ["fixed-length"]. *)
Inductive field_type : Type := simple | variable_length | fixed_length.

Definition field_type_eqb (a b : field_type) : bool :=
  match a, b with
  | simple, simple | variable_length, variable_length
  | fixed_length, fixed_length => true
  | _, _ => false
  end.

Definition find_field_type (slot_type : string)
  : res (string * field_type * Z) :=
  let bracket := "["%char in
  let length := 1 in
  let field_type := simple in
  let idx := Py.find bracket slot_type in
  if idx =? -1 then Ok (slot_type, field_type, length)
  else
    c ← Py.get slot_type (idx + 1);
    '(field_type, length) ←
      (if Ascii.eqb c "]" then Ok (variable_length, length)
       else
         let idx_end := Py.find "]" slot_type in
         let str_length := Py.slice slot_type (idx + 1) idx_end in
         length ← Py.int str_length;
         Ok (fixed_length, length));
    Ok (Py.slice slot_type 0 idx, field_type, length).

(** ** find_ASN1_type *)

Definition find_ASN1_type (slot_type : string)
  : res (string * string * bool) :=
  if Py.mem slot_type ros_primitive_type then
    asn1_type ← Dict.get primitive_types_map slot_type;
    lib_asn ← Dict.get libraries asn1_type;
    Ok (asn1_type, lib_asn, true)
  else
    let composed_type := Py.split "/" slot_type in
    asn1_type ← Py.nth composed_type 1;
    lib ← Py.nth composed_type 1;
    Ok (asn1_type, lib ++ "-Types", false).

(** ** generate_libraries_string *)

(** The inner loop over the types of one library. *)
Fixpoint join_types (ts : list string) (s comma : string) : string * string :=
  match ts with
  | [] => (s, comma)
  | t :: ts' => join_types ts' (s ++ comma ++ t) ", "
  end.

Fixpoint libraries_loop (d : Dict.t (list string)) (s comma : string)
  : string :=
  match d with
  | [] => s
  | (key, ts) :: d' =>
      let '(s, _) := join_types ts s comma in
      let s := s ++ " FROM " ++ key ++ " " in
      libraries_loop d' s ""
  end.

Definition generate_libraries_string (import_libraries : Dict.t (list string))
  : string :=
  let s := "IMPORTS " in
  let s := libraries_loop import_libraries s "" in
  let s := s ++ ";" in
  s ++ nl.

(** ** process_msg: the translation of one message dictionary *)

Definition hyphenate (s : string) : string := Py.replace "_" "-" s.

(** The lists filled by the loop over [slot_types]. *)
Record scan : Type := Scan {
  import_libraries : Dict.t (list string);
  slot_asn1_types : list string;
  field_types : list field_type;
  lengths : list Z;
  msg_deps : list string
}.

Definition scan0 : scan := Scan [] [] [] [] [].

(** The update of [import_libraries] for one field. *)
Definition add_import (d : Dict.t (list string)) (lib_asn asn1_type : string)
  : Dict.t (list string) :=
  if Dict.has d lib_asn then
    match Dict.get d lib_asn with
    | Ok ts =>
        if negb (Py.mem asn1_type ts) then
          Dict.set d lib_asn (ts ++ [asn1_type])%list
        else d
    | Raise _ => d
    end
  else Dict.set d lib_asn [asn1_type].

Fixpoint scan_slot_types (slot_types : list string) (a : scan) : res scan :=
  match slot_types with
  | [] => Ok a
  | slot_type :: rest =>
      '(slot_type, field_type, length) ← find_field_type slot_type;
      '(asn1_type, lib_asn, primitive) ← find_ASN1_type slot_type;
      scan_slot_types rest
        {| import_libraries :=
             add_import (import_libraries a) lib_asn asn1_type;
           slot_asn1_types := (slot_asn1_types a ++ [asn1_type])%list;
           field_types := (field_types a ++ [field_type])%list;
           lengths := (lengths a ++ [length])%list;
           msg_deps := if negb primitive then (msg_deps a ++ [slot_type])%list
                       else msg_deps a |}
  end.

(** [[i for i, x in enumerate(field_types) if x == tag]]. *)
Definition indices_of (tag : field_type) (fts : list field_type) : list nat :=
  map fst
    (List.filter (fun p => field_type_eqb (snd p) tag) (Py.enumerate fts)).

(** The text and the two lists rewritten by the loops over the array fields. *)
Record emit : Type := Emit {
  e_msg_string : string;
  e_field_types : list field_type;
  e_slot_asn1_types : list string
}.

Fixpoint emit_fixed (slots : list string) (lens : list Z) (indices : list nat)
    (st : emit) : res emit :=
  match indices with
  | [] => Ok st
  | i :: rest =>
      slot ← Py.nth slots i;
      let s := e_msg_string st ++ ("L" ++ hyphenate slot ++ "::=") in
      n ← Py.nth lens i;
      let s := s ++ (" SEQUENCE (SIZE(0.." ++ Py.str n ++ ")) OF ") in
      ty ← Py.nth (e_slot_asn1_types st) i;
      let s := s ++ (ty ++ nl) in
      emit_fixed slots lens rest
        {| e_msg_string := s;
           e_field_types := <[i := simple]> (e_field_types st);
           e_slot_asn1_types :=
             <[i := "L" ++ hyphenate slot]> (e_slot_asn1_types st) |}
  end.

Fixpoint emit_variable (slots : list string) (indices : list nat) (st : emit)
  : res emit :=
  match indices with
  | [] => Ok st
  | i :: rest =>
      slot ← Py.nth slots i;
      let s := e_msg_string st ++ ("V" ++ hyphenate slot ++ "::=") in
      let s := s ++ " SEQUENCE (SIZE(0..256)) OF " in
      ty ← Py.nth (e_slot_asn1_types st) i;
      let s := s ++ (ty ++ nl) in
      emit_variable slots rest
        {| e_msg_string := s;
           e_field_types := <[i := simple]> (e_field_types st);
           e_slot_asn1_types :=
             <[i := "V" ++ hyphenate slot]> (e_slot_asn1_types st) |}
  end.

(** The two renamings of [slots[i]], written back into [slots]. *)
Definition rename_slot (slots : list string) (i : nat) (ty : string)
  : res (list string) :=
  slot ← Py.nth slots i;
  let slots :=
    if String.eqb slot "type" then <[i := slot ++ "-" ++ ty]> slots
    else slots in
  slot ← Py.nth slots i;
  let slots :=
    if String.eqb (Py.lower slot) (Py.lower ty) then
      <[i := slot ++ "-field"]> slots
    else slots in
  Ok slots.

(** The loop over [range(num_fields)] of the many-field body.  The result
    carries the contents of [slots] when the loop stops, also on an
    exception. *)
Fixpoint emit_fields (fts : list field_type) (tys : list string)
    (indices : list nat) (slots : list string) (s comma : string)
  : list string * res string :=
  match indices with
  | [] => (slots, Ok s)
  | i :: rest =>
      match Py.nth fts i with
      | Raise e => (slots, Raise e)
      | Ok ft =>
          if field_type_eqb ft simple then
            match (ty ← Py.nth tys i;
                   slots' ← rename_slot slots i ty;
                   slot ← Py.nth slots' i;
                   Ok (slots', slot, ty)) with
            | Raise e => (slots, Raise e)
            | Ok (slots', slot, ty) =>
                let s := s ++ (comma ++ tab ++ hyphenate slot) in
                let s := s ++ (tab ++ ty) in
                emit_fields fts tys rest slots' s ("," ++ nl)
            end
          else emit_fields fts tys rest slots s comma
      end
  end.

Definition emit_body (msg_name : string) (num_fields : nat)
    (fts : list field_type) (tys : list string) (slots : list string)
    (s : string) : list string * res string :=
  if (num_fields =? 1)%nat then
    match Py.nth fts 0 with
    | Raise e => (slots, Raise e)
    | Ok ft =>
        if field_type_eqb ft simple then
          match (ty ← Py.nth tys 0;
                 slots' ← rename_slot slots 0 ty;
                 slot ← Py.nth slots' 0;
                 Ok (slots', slot, ty)) with
          | Raise e => (slots, Raise e)
          | Ok (slots', slot, ty) =>
              let s := s ++ (msg_name ++ "::=" ++ nl ++ "SEQUENCE" ++ nl
                             ++ "{" ++ nl) in
              let s := s ++ (tab ++ hyphenate slot ++ tab) in
              let s := s ++ (ty ++ nl ++ "}" ++ nl) in
              (slots', Ok s)
          end
        else (slots, Ok s)
    end
  else
    let s := s ++ (msg_name ++ "::=" ++ nl ++ "SEQUENCE" ++ nl ++ "{" ++ nl) in
    match emit_fields fts tys (seq 0 num_fields) slots s "" with
    | (slots', Ok s) => (slots', Ok (s ++ (nl ++ "}" ++ nl)))
    | (slots', Raise e) => (slots', Raise e)
    end.

(** Lines 276 to 346 of [process_msg]: from the name, [slots] and
    [slot_types] of the message dictionary to the text and the dependencies,
    together with the contents of [slots] afterwards. *)
Definition translate (msg_name : string) (slots slot_types : list string)
  : list string * res (string * list string) :=
  let msg_string :=
    msg_name ++ "-Types DEFINITIONS ::=" ++ nl ++ "BEGIN" ++ nl in
  let num_fields := length slot_types in
  match scan_slot_types slot_types scan0 with
  | Raise e => (slots, Raise e)
  | Ok a =>
      let msg_string :=
        msg_string ++ generate_libraries_string (import_libraries a) in
      let fixed_indices := indices_of fixed_length (field_types a) in
      let variable_indices := indices_of variable_length (field_types a) in
      match (st ← emit_fixed slots (lengths a) fixed_indices
                    (Emit msg_string (field_types a) (slot_asn1_types a));
             emit_variable slots variable_indices st) with
      | Raise e => (slots, Raise e)
      | Ok st =>
          match emit_body msg_name num_fields (e_field_types st)
                  (e_slot_asn1_types st) slots (e_msg_string st) with
          | (slots', Raise e) => (slots', Raise e)
          | (slots', Ok s) => (slots', Ok (s ++ "END", msg_deps a))
          end
      end
  end.

(** ** The collaborators of [process_msg] *)

(** A generated message class: the four attributes [get_message_dict] reads. *)
Record msg_class : Type := MsgClass {
  _type : string;
  __slots__ : list string;
  _slot_types : list string;
  _full_text : string
}.

(** What the script sees of ROS: [rosmsg.list_msgs(pkg, rospack)],
    [rosmsg.rosmsg_search(rospack, MODE_MSG, msg)] and the importable modules
    [<pkg>.msg] with their [__dict__]. *)
Record world : Type := World {
  list_msgs : string -> res (list string);
  rosmsg_search : string -> list string;
  modules : Dict.t (Dict.t msg_class)
}.

Definition get_message_package (rospack : world) (msg : string)
  : res (option string * option string) :=
  if Py.contains "/" msg then
    pkg ← Py.nth (Py.split "/" msg) 0;
    msgs ← list_msgs rospack pkg;
    if negb (Py.mem msg msgs) then Ok (None, None)
    else
      pkg_name ← Py.nth (Py.split "/" msg) 0;
      msg_name ← Py.nth (Py.split "/" msg) 1;
      Ok (Some msg_name, Some pkg_name)
  else
    let messages := rosmsg_search rospack msg in
    if (1 <? length messages)%nat then Ok (None, None)
    else if (length messages =? 1)%nat then
      m ← Py.nth messages 0;
      pkg_name ← Py.nth (Py.split "/" m) 0;
      msg_name ← Py.nth (Py.split "/" m) 1;
      Ok (Some msg_name, Some pkg_name)
    else Ok (None, None).

Definition get_python_msg_module (rospack : world) (pkg : string)
  : option (Dict.t msg_class) :=
  let module_name := pkg ++ ".msg" in
  match Dict.get (modules rospack) module_name with
  | Ok module => Some module
  | Raise _ => None
  end.

(** The dictionary built by [get_message_dict]; [slots] is the very list
    [obj.__slots__]. *)
Record msg_dict : Type := MsgDict {
  type : string;
  slots : list string;
  slot_types : list string;
  full_text : string
}.

Definition get_message_dict (module : Dict.t msg_class) (msg : string)
  : option msg_dict :=
  match Dict.get module msg with
  | Raise _ => None
  | Ok obj =>
      Some {| type := _type obj; slots := __slots__ obj;
              slot_types := _slot_types obj; full_text := _full_text obj |}
  end.

(** The write to the shared list [__slots__] of class [msg] of package [pkg]. *)
Definition store_slots (rospack : world) (pkg msg : string)
    (new_slots : list string) : world :=
  let module_name := pkg ++ ".msg" in
  match Dict.get (modules rospack) module_name with
  | Raise _ => rospack
  | Ok module =>
      match Dict.get module msg with
      | Raise _ => rospack
      | Ok obj =>
          let obj := {| _type := _type obj; __slots__ := new_slots;
                        _slot_types := _slot_types obj;
                        _full_text := _full_text obj |} in
          {| list_msgs := list_msgs rospack;
             rosmsg_search := rosmsg_search rospack;
             modules := Dict.set (modules rospack) module_name
                          (Dict.set module msg obj) |}
      end
  end.

(** [process_msg]: [Ok None] is the return of [(None, None)]. *)
Definition process_msg (rospack : world) (msg : string)
  : world * res (option (string * list string)) :=
  match get_message_package rospack msg with
  | Raise e => (rospack, Raise e)
  | Ok (Some msg_name, Some pkg_name) =>
      match get_python_msg_module rospack pkg_name with
      | None => (rospack, Ok None)
      | Some module =>
          match get_message_dict module msg_name with
          | None => (rospack, Ok None)
          | Some msg_dict =>
              match translate msg_name (slots msg_dict) (slot_types msg_dict)
              with
              | (slots', Raise e) =>
                  (store_slots rospack pkg_name msg_name slots', Raise e)
              | (slots', Ok r) =>
                  (store_slots rospack pkg_name msg_name slots', Ok (Some r))
              end
          end
      end
  | Ok _ => (rospack, Ok None)
  end.

(** ** save_msg and the loop of main *)

(** The output directory as the sequence of writes, oldest first. *)
Definition files : Type := list (string * string).

Definition save_msg (fs : files) (asn1_str msg out_dir : string) : res files :=
  msg ← (if Py.contains "/" msg then Py.nth (Py.split "/" msg) 1 else Ok msg);
  Ok (app fs [(out_dir ++ msg ++ ".asn", asn1_str)]).

(** How the process ends: [main] returns, [sys.exit(code)], or an exception
    nobody catches. *)
Inductive outcome : Type :=
| Returned
| Exited (code : Z)
| Raised (e : exn).

(** The exit status of the interpreter. *)
Definition exit_status (o : outcome) : Z :=
  match o with
  | Returned => 0
  | Exited code => code
  | Raised _ => 1
  end.

Record state (W : Type) : Type := State {
  rospack_of : W;
  messages : list string;
  generated_msgs : list string;
  written : files
}.
Arguments State {W} _ _ _ _.
Arguments rospack_of {W} _.
Arguments messages {W} _.
Arguments generated_msgs {W} _.
Arguments written {W} _.

(** The loop over [msg_deps] at the end of an iteration. *)
Fixpoint enqueue (msg_deps messages generated : list string) : list string :=
  match msg_deps with
  | [] => messages
  | dep :: rest =>
      if negb (Py.mem dep messages) && negb (Py.mem dep generated) then
        enqueue rest (messages ++ [dep])%list generated
      else enqueue rest messages generated
  end.

(** One iteration of [while len(messages) > 0], for any [process_msg]. *)
Definition main_step {W : Type}
    (process : W -> string -> W * res (option (string * list string)))
    (out_dir : string) (st : state W) : state W * option outcome :=
  match messages st with
  | [] => (st, Some Returned)
  | msg :: rest =>
      match process (rospack_of st) msg with
      | (w, Raise e) =>
          (State w rest (generated_msgs st) (written st), Some (Raised e))
      | (w, Ok None) =>
          (State w rest (generated_msgs st) (written st),
           Some (Exited (value ARGS_ERROR)))
      | (w, Ok (Some (asn1_str, msg_deps))) =>
          match save_msg (written st) asn1_str msg out_dir with
          | Raise e =>
              (State w rest (generated_msgs st) (written st), Some (Raised e))
          | Ok fs =>
              let generated := (generated_msgs st ++ [msg])%list in
              (State w (enqueue msg_deps rest generated) generated fs, None)
          end
      end
  end.

(** The loop, with a bound on the number of iterations. *)
Fixpoint main_loop {W : Type}
    (process : W -> string -> W * res (option (string * list string)))
    (out_dir : string) (fuel : nat) (st : state W)
  : option (state W * outcome) :=
  match fuel with
  | O => None
  | S fuel' =>
      match main_step process out_dir st with
      | (st', Some o) => Some (st', o)
      | (st', None) => main_loop process out_dir fuel' st'
      end
  end.

Definition init {W : Type} (w : W) (names : list string) : state W :=
  State w names [] [].

(** ** The translation described field by field

    The properties below compare [translate] with a description of its
    output by fields: what one field contributes to the imports, to the
    auxiliary definitions and to the record body. *)

Module Layout.

(** One field: its name in [slots], and what [find_field_type] and
    [find_ASN1_type] return for its entry of [slot_types]. *)
Record field : Type := Field {
  name : string;
  base : string;
  kind : field_type;
  bound : Z;
  asn1 : string;
  lib : string;
  primitive : bool
}.

Definition classify (slot slot_type : string) : res field :=
  '(base, kind, bound) ← find_field_type slot_type;
  '(asn1, lib, primitive) ← find_ASN1_type base;
  Ok (Field slot base kind bound asn1 lib primitive).

Fixpoint classify_all (slots slot_types : list string) {struct slot_types}
  : res (list field) :=
  match slot_types, slots with
  | [], _ => Ok []
  | slot_type :: slot_types', slot :: slots' =>
      f ← classify slot slot_type;
      fs ← classify_all slots' slot_types';
      Ok (f :: fs)
  | _ :: _, [] => Raise IndexError
  end.

(** [l] without the later occurrences of its elements. *)
Fixpoint first_seen (l : list string) : list string :=
  match l with
  | [] => []
  | x :: l' => x :: List.filter (fun y => negb (String.eqb x y)) (first_seen l')
  end.

(** The import map: the libraries in order of first use, each with its types
    in order of first use. *)
Definition imports (fs : list field) : Dict.t (list string) :=
  map (fun l =>
         (l, first_seen
               (map asn1 (List.filter (fun f => String.eqb l (lib f)) fs))))
      (first_seen (map lib fs)).

Fixpoint join (sep : string) (l : list string) : string :=
  match l with
  | [] => ""
  | [x] => x
  | x :: l' => x ++ sep ++ join sep l'
  end.

Fixpoint concat (l : list string) : string :=
  match l with
  | [] => ""
  | x :: l' => x ++ concat l'
  end.

Definition clause (e : string * list string) : string :=
  join ", " (snd e) ++ " FROM " ++ fst e ++ " ".

Definition imports_text (d : Dict.t (list string)) : string :=
  "IMPORTS " ++ concat (map clause d) ++ ";" ++ nl.

(** The type a field has in the record body. *)
Definition effective_type (f : field) : string :=
  match kind f with
  | simple => asn1 f
  | fixed_length => "L" ++ hyphenate (name f)
  | variable_length => "V" ++ hyphenate (name f)
  end.

Definition cap (f : field) : string :=
  match kind f with
  | fixed_length => Py.str (bound f)
  | _ => "256"
  end.

(** The auxiliary definition of an array field. *)
Definition sequence_definition (f : field) : string :=
  effective_type f ++ "::= SEQUENCE (SIZE(0.." ++ cap f ++ ")) OF "
  ++ asn1 f ++ nl.

Definition has_kind (k : field_type) (f : field) : bool :=
  field_type_eqb (kind f) k.

(** The auxiliary definitions as the script writes them: those of the
    fixed-length fields, then those of the variable-length fields. *)
Definition sequences (fs : list field) : string :=
  concat (map sequence_definition (List.filter (has_kind fixed_length) fs))
  ++ concat
       (map sequence_definition (List.filter (has_kind variable_length) fs)).

(** The auxiliary definitions in the order of the fields. *)
Definition sequences_in_field_order (fs : list field) : string :=
  concat (map sequence_definition
            (List.filter (fun f => negb (has_kind simple f)) fs)).

(** The name of a field after the two renamings. *)
Definition renamed (slot ty : string) : string :=
  let slot := if String.eqb slot "type" then slot ++ "-" ++ ty else slot in
  if String.eqb (Py.lower slot) (Py.lower ty) then slot ++ "-field" else slot.

Definition emitted_name (f : field) : string :=
  hyphenate (renamed (name f) (effective_type f)).

Definition body_field (f : field) : string :=
  tab ++ emitted_name f ++ tab ++ effective_type f.

Definition body (msg_name : string) (fs : list field) : string :=
  msg_name ++ "::=" ++ nl ++ "SEQUENCE" ++ nl ++ "{" ++ nl
  ++ join ("," ++ nl) (map body_field fs) ++ nl ++ "}" ++ nl.

Definition header (msg_name : string) : string :=
  msg_name ++ "-Types DEFINITIONS ::=" ++ nl ++ "BEGIN" ++ nl.

Definition module_text (msg_name : string) (fs : list field) : string :=
  header msg_name ++ imports_text (imports fs) ++ sequences fs
  ++ body msg_name fs ++ "END".

Definition dependencies (fs : list field) : list string :=
  map base (List.filter (fun f => negb (primitive f)) fs).

(** [slots] after the translation: the names of the fields renamed, the
    entries beyond the fields as they were. *)
Fixpoint slots_after (slots : list string) (fs : list field) : list string :=
  match slots, fs with
  | slot :: slots', f :: fs' =>
      renamed slot (effective_type f) :: slots_after slots' fs'
  | _, _ => slots
  end.

(** The import map as the loop over the fields builds it. *)
Definition collect (fs : list field) (d : Dict.t (list string))
  : Dict.t (list string) :=
  fold_left (fun d f => add_import d (lib f) (asn1 f)) fs d.

(** The fields of the body as the loop writes them, [comma] being the
    separator due before the next field. *)
Fixpoint fields_text (comma : string) (fs : list field) : string :=
  match fs with
  | [] => ""
  | f :: fs' => comma ++ body_field f ++ fields_text ("," ++ nl) fs'
  end.

(** What the loop over the fields of kind [k] leaves: the kind and the type
    of a field once its auxiliary definition is written. *)
Definition kind_after (k : field_type) (kf : field -> field_type) (f : field)
  : field_type :=
  if field_type_eqb (kf f) k then simple else kf f.

Definition type_after (k : field_type) (prefix : string)
    (kf : field -> field_type) (tf : field -> string) (f : field) : string :=
  if field_type_eqb (kf f) k then prefix ++ hyphenate (name f) else tf f.

(** The indices of the fields of kind [k] among [fs], counted from [n]. *)
Definition indices_from (n : nat) (k : field_type)
    (kf : field -> field_type) (fs : list field) : list nat :=
  map fst (List.filter (fun p => field_type_eqb (snd p) k)
             (combine (seq n (length (map kf fs))) (map kf fs))).

(** The auxiliary definition the loop for kind [k] writes for a field whose
    type is [tf f] when the loop reaches it. *)
Definition sequence_line (prefix size : string) (tf : field -> string)
    (f : field) : string :=
  (prefix ++ hyphenate (name f) ++ "::=")
  ++ (" SEQUENCE (SIZE(0.." ++ size ++ ")) OF ") ++ (tf f ++ nl).

End Layout.

(** ** Example environments *)

(** A ROS installation given by its packages, each with its messages as
    (name, slots, slot types). *)
Definition package : Type := string * list (string * list string * list string).

Definition msg_names (p : package) : list string :=
  map (fun m => fst p ++ "/" ++ fst (fst m)) (snd p).

Definition class_of (p : package) (m : string * list string * list string)
  : string * msg_class :=
  (fst (fst m),
   MsgClass (fst p ++ "/" ++ fst (fst m)) (snd (fst m)) (snd m) "").

Definition ros (pkgs : list package) : world :=
  {| list_msgs := fun pkg =>
       match List.filter (fun p => String.eqb (fst p) pkg) pkgs with
       | p :: _ => Ok (msg_names p)
       | [] => Raise ResourceNotFound
       end;
     rosmsg_search := fun msg =>
       List.filter (fun n => match Py.nth (Py.split "/" n) 1 with
                        | Ok m => String.eqb m msg
                        | Raise _ => false
                        end)
              (flat_map msg_names pkgs);
     modules := map (fun p => (fst p ++ ".msg", map (class_of p) (snd p))) pkgs
  |}.

(** Two messages that refer to each other. *)
Definition cycle_ros : world :=
  ros [("p", [("A", ["to_b"], ["p/B"]); ("B", ["to_a"], ["p/A"])])].

(** A message without fields, as [std_msgs/Empty]. *)
Definition empty_ros : world := ros [("std_msgs", [("Empty", [], [])])].

(** A message with a field named [type]. *)
Definition typed_ros : world :=
  ros [("p", [("M", ["type"; "n"], ["int32"; "uint32"])])].

(** ** What the loop of main is compared with *)

(** The name without its package, as [save_msg] computes it. *)
Definition unqualified (msg : string) : string :=
  if Py.contains "/" msg then
    match Py.split "/" msg with
    | _ :: m :: _ => m
    | _ => msg
    end
  else msg.

Definition artifact (out_dir msg : string) : string :=
  out_dir ++ unqualified msg ++ ".asn".

(** The names the requested [names] lead to, when [deps_of n] are the
    dependencies of [n]. *)
Inductive reach (deps_of : string -> list string) (names : list string)
  : string -> Prop :=
| reach_init n : In n names -> reach deps_of names n
| reach_dep m n :
    reach deps_of names m -> In n (deps_of m) -> reach deps_of names n.

(** The states the loop goes through from a state. *)
Inductive steps {W : Type}
    (process : W -> string -> W * res (option (string * list string)))
    (out_dir : string) (st : state W) : state W -> Prop :=
| steps_refl : steps process out_dir st st
| steps_next st' st'' :
    steps process out_dir st st' ->
    main_step process out_dir st' = (st'', None) ->
    steps process out_dir st st''.

(** The names of [U] that are neither pending nor done, and the bound on the
    number of iterations left. *)
Definition unseen (U seen : list string) : list string :=
  List.filter (fun u => negb (Py.mem u seen)) U.

Definition measure {W : Type} (U : list string) (st : state W) : nat :=
  (length (unseen U (generated_msgs st ++ messages st))
   + length (messages st))%nat.

(** What the pending and generated names have to do with [reach]: they are
    reached, the requested names are among them, and so are the dependencies
    of the generated ones. *)
Definition closure_inv {W : Type} (deps_of : string -> list string)
    (names : list string) (st : state W) : Prop :=
  (forall n, In n (generated_msgs st ++ messages st) ->
             reach deps_of names n) /\
  (forall n, In n names -> In n (generated_msgs st ++ messages st)) /\
  (forall g d, In g (generated_msgs st) -> In d (deps_of g) ->
               In d (generated_msgs st ++ messages st)).

(** The dependencies in [cycle_ros], and the two modules written for it. *)
Definition cycle_deps (n : string) : list string :=
  if String.eqb n "p/A" then ["p/B"] else ["p/A"].

Definition module_A : string :=
  "A-Types DEFINITIONS ::=" ++ nl ++ "BEGIN" ++ nl
  ++ "IMPORTS B FROM B-Types ;" ++ nl
  ++ "A::=" ++ nl ++ "SEQUENCE" ++ nl ++ "{" ++ nl
  ++ tab ++ "to-b" ++ tab ++ "B" ++ nl ++ "}" ++ nl ++ "END".

Definition module_B : string :=
  "B-Types DEFINITIONS ::=" ++ nl ++ "BEGIN" ++ nl
  ++ "IMPORTS A FROM A-Types ;" ++ nl
  ++ "B::=" ++ nl ++ "SEQUENCE" ++ nl ++ "{" ++ nl
  ++ tab ++ "to-a" ++ tab ++ "A" ++ nl ++ "}" ++ nl ++ "END".

(** What a run leaves: the pending names, the generated names, the writes
    and the outcome. *)
Definition summary {W : Type} (r : option (state W * outcome))
  : option (list string * list string * files * outcome) :=
  option_map
    (fun r => (messages (fst r), generated_msgs (fst r), written (fst r),
               snd r)) r.

(** ** The start of main, and what further properties are stated with *)

(** Lines 370 to 372 of [main]: the output directory with its final [/]. *)
Definition main_out_dir (output : string) : res string :=
  c ← Py.get output (-1);
  if negb (Ascii.eqb c "/") then Ok (output ++ "/") else Ok output.

(** The characters of a string. *)
Definition chars (s : string) : list ascii := list_ascii_of_string s.

(** The number written by the digits [d] after the digits of [acc]. *)
Fixpoint uint_value (d : Decimal.uint) (acc : Z) : Z :=
  match d with
  | Decimal.Nil => acc
  | Decimal.D0 d => uint_value d (10 * acc + 0)
  | Decimal.D1 d => uint_value d (10 * acc + 1)
  | Decimal.D2 d => uint_value d (10 * acc + 2)
  | Decimal.D3 d => uint_value d (10 * acc + 3)
  | Decimal.D4 d => uint_value d (10 * acc + 4)
  | Decimal.D5 d => uint_value d (10 * acc + 5)
  | Decimal.D6 d => uint_value d (10 * acc + 6)
  | Decimal.D7 d => uint_value d (10 * acc + 7)
  | Decimal.D8 d => uint_value d (10 * acc + 8)
  | Decimal.D9 d => uint_value d (10 * acc + 9)
  end.

(** A field under another name. *)
Definition with_name (slot : string) (f : Layout.field) : Layout.field :=
  Layout.Field slot (Layout.base f) (Layout.kind f) (Layout.bound f)
    (Layout.asn1 f) (Layout.lib f) (Layout.primitive f).

(** The class [msg] of the module [module_name], as [process_msg] reaches
    it. *)
Definition lookup_class (rospack : world) (module_name msg : string)
  : res msg_class :=
  module ← Dict.get (modules rospack) module_name;
  Dict.get module msg.

(** [l'] is [l] with text appended to some of its entries. *)
Definition extended (l l' : list string) : Prop :=
  Forall2 (fun s s' => exists suffix, s' = s ++ suffix) l l'.

(** A field under the name the translation leaves in [slots]. *)
Definition settled (f : Layout.field) : Layout.field :=
  with_name (Layout.renamed (Layout.name f) (Layout.effective_type f)) f.

(** Two states of a message class that differ at most by text appended
    to the names in [__slots__]. *)
Definition same_but_slots (o o' : msg_class) : Prop :=
  _type o' = _type o /\ _slot_types o' = _slot_types o /\
  _full_text o' = _full_text o /\ extended (__slots__ o) (__slots__ o').

(** The spec's [lastComponentOf]: what follows the last [/] of a type
    name. *)
Definition lastComponentOf (baseType : string) : string :=
  List.last (Py.split "/" baseType) "".

(** Underscores replaced by hyphens, character by character. *)
Definition hyphen_for_underscore (c : ascii) : ascii :=
  if Ascii.eqb c "_" then "-"%char else c.

(** A package with the message [Bool], whose one field is a [bool], and a
    message that refers to it. *)
Definition bool_ros : world :=
  ros [("std_msgs", [("Bool", ["data"], ["bool"]);
                     ("Flag", ["flag"], ["std_msgs/Bool"])])].

(** * Properties *)

(** ** Strings, membership and list access *)

Lemma sapp_assoc (a b c : string) : (a ++ b) ++ c = a ++ (b ++ c).
Proof. induction a as [|x a IH]; simpl; [reflexivity | now rewrite IH]. Qed.

Lemma sapp_nil_r (a : string) : a ++ "" = a.
Proof. induction a as [|x a IH]; simpl; [reflexivity | now rewrite IH]. Qed.

(** Both sides of an equation between texts, nested to the right. *)
Ltac str_norm :=
  repeat (rewrite sapp_assoc || (progress (cbn [String.append]))).

Lemma mem_elem_of (x : string) (l : list string) :
  Py.mem x l = true <-> x ∈ l.
Proof.
  unfold Py.mem. rewrite existsb_exists, list_elem_of_In. split.
  - intros (y & Hy & Heq). apply String.eqb_eq in Heq. now subst.
  - intros H. exists x. split; [assumption | apply String.eqb_refl].
Qed.

Lemma nth_middle {A} (l1 l2 : list A) (x : A) :
  Py.nth (l1 ++ x :: l2)%list (length l1) = Ok x.
Proof. unfold Py.nth. now rewrite list_lookup_middle. Qed.

Lemma insert_middle {A} (l1 l2 : list A) (x y : A) :
  <[length l1 := y]> (l1 ++ x :: l2)%list = (l1 ++ y :: l2)%list.
Proof.
  replace (length l1) with (length l1 + 0)%nat by lia.
  now rewrite insert_app_r.
Qed.


(** ** The loop over [slot_types] *)

Lemma classify_all_shape slots slot_types fs :
  Layout.classify_all slots slot_types = Ok fs ->
  slots = (map Layout.name fs ++ drop (length fs) slots)%list /\
  length fs = length slot_types.
Proof.
  revert slots fs.
  induction slot_types as [|st sts IH]; intros slots fs H; simpl in H.
  - inversion H; subst. simpl. now rewrite ?drop_0.
  - destruct slots as [|slot slots]; [discriminate|].
    unfold Layout.classify at 1 in H.
    destruct (find_field_type st) as [[[b k] n]|]; [|discriminate].
    simpl in H.
    destruct (find_ASN1_type b) as [[[a l] p]|]; [|discriminate].
    simpl in H.
    destruct (Layout.classify_all slots sts) as [fs'|] eqn:E; [|discriminate].
    simpl in H. inversion H; subst. simpl.
    destruct (IH _ _ E) as [Hs Hl]. split; [|now rewrite Hl].
    now rewrite <- Hs.
Qed.

(** Every classified field comes from an entry of [slot_types]. *)
Lemma classify_all_In slots slot_types fs :
  Layout.classify_all slots slot_types = Ok fs ->
  forall f, In f fs ->
    exists slot_type,
      In (Layout.name f) slots /\ In slot_type slot_types /\
      find_field_type slot_type
        = Ok (Layout.base f, Layout.kind f, Layout.bound f) /\
      find_ASN1_type (Layout.base f)
        = Ok (Layout.asn1 f, Layout.lib f, Layout.primitive f).
Proof.
  revert slots fs.
  induction slot_types as [|st sts IH]; intros slots fs H f Hf; simpl in H.
  - inversion H; subst. destruct Hf.
  - destruct slots as [|slot slots]; [discriminate|].
    unfold Layout.classify at 1 in H.
    destruct (find_field_type st) as [[[b k] n]|] eqn:E1; [|discriminate].
    simpl in H.
    destruct (find_ASN1_type b) as [[[a l] p]|] eqn:E2; [|discriminate].
    simpl in H.
    destruct (Layout.classify_all slots sts) as [fs'|] eqn:E; [|discriminate].
    simpl in H. inversion H; subst. destruct Hf as [<-|Hf].
    + exists st. simpl. auto.
    + destruct (IH _ _ E f Hf) as (st' & H1 & H2 & H3 & H4).
      exists st'. simpl. auto.
Qed.

Lemma scan_slot_types_layout slot_types : forall slots fs a,
  Layout.classify_all slots slot_types = Ok fs ->
  scan_slot_types slot_types a =
    Ok {| import_libraries := Layout.collect fs (import_libraries a);
          slot_asn1_types := (slot_asn1_types a ++ map Layout.asn1 fs)%list;
          field_types := (field_types a ++ map Layout.kind fs)%list;
          lengths := (lengths a ++ map Layout.bound fs)%list;
          msg_deps := (msg_deps a ++ Layout.dependencies fs)%list |}.
Proof.
  induction slot_types as [|st sts IH]; intros slots fs a H; simpl in H.
  - inversion H; subst. simpl. rewrite !app_nil_r. now destruct a.
  - destruct slots as [|slot slots]; [discriminate|].
    unfold Layout.classify at 1 in H. simpl.
    destruct (find_field_type st) as [[[b k] n]|]; [|discriminate].
    simpl in H |- *.
    destruct (find_ASN1_type b) as [[[ty l] p]|]; [|discriminate].
    simpl in H |- *.
    destruct (Layout.classify_all slots sts) as [fs'|] eqn:E; [|discriminate].
    simpl in H. inversion H; subst.
    rewrite (IH _ _ _ E). simpl. unfold Layout.dependencies. simpl.
    destruct p; simpl; rewrite <- ?app_assoc; reflexivity.
Qed.

(** ** The import map *)

Lemma mem_In (x : string) (l : list string) : Py.mem x l = true <-> In x l.
Proof. rewrite mem_elem_of. apply list_elem_of_In. Qed.

Lemma first_seen_In x l : In x (Layout.first_seen l) <-> In x l.
Proof.
  induction l as [|y l IH]; simpl; [tauto|].
  rewrite filter_In, IH, negb_true_iff, String.eqb_neq.
  destruct (string_dec y x); [tauto|]. split; [tauto|].
  intros [H|H]; [tauto|]. right. split; assumption.
Qed.

Lemma first_seen_NoDup l : List.NoDup (Layout.first_seen l).
Proof.
  induction l as [|y l IH]; simpl; constructor.
  - rewrite filter_In, negb_true_iff, String.eqb_neq. tauto.
  - now apply List.NoDup_filter.
Qed.

Lemma first_seen_snoc l x :
  Layout.first_seen (l ++ [x]) =
  if Py.mem x l then Layout.first_seen l else (Layout.first_seen l ++ [x])%list.
Proof.
  induction l as [|y l IH]; simpl; [reflexivity|].
  rewrite IH. rewrite (String.eqb_sym x y).
  destruct (String.eqb_spec y x) as [->|Hne]; simpl.
  - destruct (Py.mem x l); [reflexivity|].
    rewrite List.filter_app. simpl. rewrite String.eqb_refl. simpl.
    now rewrite app_nil_r.
  - destruct (Py.mem x l); [reflexivity|].
    rewrite List.filter_app. simpl.
    apply String.eqb_neq in Hne. now rewrite Hne.
Qed.

Section KeyedDict.
Context {V : Type} (g : string -> V).

Let keyed (keys : list string) : Dict.t V := map (fun l => (l, g l)) keys.

Lemma has_keyed keys k : Dict.has (keyed keys) k = Py.mem k keys.
Proof.
  induction keys as [|y keys IH]; simpl; [reflexivity|].
  now rewrite IH, (String.eqb_sym k y).
Qed.

Lemma get_keyed keys k : In k keys -> Dict.get (keyed keys) k = Ok (g k).
Proof.
  induction keys as [|y keys IH]; simpl; [tauto|]. intros H.
  destruct (String.eqb_spec y k) as [->|Hne]; [reflexivity|].
  apply IH. destruct H; [contradiction | assumption].
Qed.

Lemma set_keyed_absent keys k v :
  ~ In k keys -> Dict.set (keyed keys) k v = (keyed keys ++ [(k, v)])%list.
Proof.
  induction keys as [|y keys IH]; simpl; [reflexivity|]. intros H.
  destruct (String.eqb_spec y k) as [->|Hne]; [tauto|].
  rewrite IH; [reflexivity | tauto].
Qed.

Lemma set_keyed_present keys k v :
  List.NoDup keys -> In k keys ->
  Dict.set (keyed keys) k v =
  map (fun l => (l, if String.eqb l k then v else g l)) keys.
Proof.
  induction keys as [|y keys IH]; simpl; [tauto|]. intros Hnd H.
  inversion Hnd as [|? ? Hy Hnd']; subst.
  destruct (String.eqb_spec y k) as [->|Hne].
  - f_equal. apply map_ext_in. intros l Hl.
    destruct (String.eqb_spec l k) as [->|]; [contradiction | reflexivity].
  - f_equal. apply IH; [assumption|]. destruct H; [contradiction|assumption].
Qed.
End KeyedDict.

Lemma mem_first_seen x l : Py.mem x (Layout.first_seen l) = Py.mem x l.
Proof. apply Bool.eq_iff_eq_true. rewrite !mem_In. apply first_seen_In. Qed.

Lemma filter_lib_nil l fs :
  ~ In l (map Layout.lib fs) ->
  List.filter (fun f => String.eqb l (Layout.lib f)) fs = [].
Proof.
  induction fs as [|x xs IH]; simpl; [reflexivity|]. intros H.
  destruct (String.eqb_spec l (Layout.lib x)) as [e|ne].
  - exfalso. apply H. left. now symmetry.
  - apply IH. intros H'. apply H. now right.
Qed.

(** The types imported from library [l] by the fields [fs]. *)
Lemma types_of_snoc l fs f :
  Layout.first_seen
    (map Layout.asn1
       (List.filter (fun f => String.eqb l (Layout.lib f)) (fs ++ [f]))) =
  let ts := Layout.first_seen
              (map Layout.asn1
                 (List.filter (fun f => String.eqb l (Layout.lib f)) fs)) in
  if String.eqb l (Layout.lib f) then
    if Py.mem (Layout.asn1 f) ts then ts else (ts ++ [Layout.asn1 f])%list
  else ts.
Proof.
  rewrite List.filter_app. simpl.
  destruct (String.eqb l (Layout.lib f)); simpl.
  - rewrite map_app. simpl. now rewrite first_seen_snoc, mem_first_seen.
  - now rewrite app_nil_r.
Qed.

Lemma imports_snoc fs f :
  Layout.imports (fs ++ [f]) =
  add_import (Layout.imports fs) (Layout.lib f) (Layout.asn1 f).
Proof.
  unfold Layout.imports, add_import.
  rewrite map_app. simpl. rewrite first_seen_snoc, <- mem_first_seen.
  set (keys := Layout.first_seen (map Layout.lib fs)).
  set (L := Layout.lib f). set (T := Layout.asn1 f).
  set (g := fun l => Layout.first_seen
                       (map Layout.asn1
                          (List.filter
                             (fun f => String.eqb l (Layout.lib f)) fs))).
  assert (Hg : forall l, Layout.first_seen
                 (map Layout.asn1
                    (List.filter (fun f => String.eqb l (Layout.lib f))
                       (fs ++ [f]))) =
               if String.eqb l L then
                 if Py.mem T (g L) then g L else (g L ++ [T])%list
               else g l).
  { intros l. rewrite types_of_snoc. simpl. fold L T (g l).
    destruct (String.eqb_spec l L) as [->|]; reflexivity. }
  change (Dict.has (map _ keys) L)
    with (Dict.has (map (fun l => (l, g l)) keys) L).
  change (Dict.get (map _ keys) L)
    with (Dict.get (map (fun l => (l, g l)) keys) L).
  rewrite has_keyed.
  destruct (Py.mem L keys) eqn:HL.
  - apply mem_In in HL. rewrite (get_keyed g keys L HL).
    destruct (Py.mem T (g L)) eqn:HT; simpl.
    + apply map_ext. intros l. rewrite Hg. fold (g l).
      destruct (String.eqb_spec l L) as [->|]; reflexivity.
    + change (Dict.set (map _ keys) L)
        with (Dict.set (map (fun l => (l, g l)) keys) L).
      rewrite set_keyed_present; [|apply first_seen_NoDup|assumption].
      apply map_ext. intros l. now rewrite Hg.
  - assert (HnL : ~ In L keys).
    { intros H. apply mem_In in H. congruence. }
    change (Dict.set (map _ keys) L)
      with (Dict.set (map (fun l => (l, g l)) keys) L).
    rewrite set_keyed_absent by assumption.
    assert (HgL : g L = []).
    { unfold g. rewrite filter_lib_nil; [reflexivity|].
      intros H. apply HnL. now apply first_seen_In. }
    rewrite map_app. simpl. f_equal.
    + apply map_ext_in. intros l Hl. rewrite Hg.
      destruct (String.eqb_spec l L) as [->|]; [contradiction | reflexivity].
    + rewrite Hg, String.eqb_refl, HgL. reflexivity.
Qed.

Lemma collect_app fs1 fs2 d :
  Layout.collect (fs1 ++ fs2) d = Layout.collect fs2 (Layout.collect fs1 d).
Proof. unfold Layout.collect. apply fold_left_app. Qed.

Lemma collect_imports fs : Layout.collect fs [] = Layout.imports fs.
Proof.
  induction fs as [|f fs IH] using rev_ind; [reflexivity|].
  rewrite collect_app, IH, imports_snoc. reflexivity.
Qed.

(** ** generate_libraries_string *)

Lemma join_types_text ts : forall s,
  join_types ts s ", "
  = (s ++ Layout.concat (map (fun t => ", " ++ t) ts), ", ").
Proof.
  induction ts as [|t ts IH]; intros s; simpl.
  - now rewrite sapp_nil_r.
  - rewrite IH. now rewrite !sapp_assoc.
Qed.

Lemma join_types_join ts s :
  fst (join_types ts s "") = s ++ Layout.join ", " ts.
Proof.
  destruct ts as [|t ts]; simpl; [now rewrite sapp_nil_r|].
  rewrite join_types_text. simpl. rewrite sapp_assoc. f_equal.
  clear s. revert t. induction ts as [|u ts IH]; intros t; simpl.
  - now rewrite sapp_nil_r.
  - f_equal. rewrite <- IH. reflexivity.
Qed.

Lemma libraries_loop_text d : forall s,
  libraries_loop d s "" = s ++ Layout.concat (map Layout.clause d).
Proof.
  induction d as [|[key ts] d IH]; intros s; simpl.
  - now rewrite sapp_nil_r.
  - destruct (join_types ts s "") as [s' c] eqn:E.
    rewrite IH. pose proof (join_types_join ts s) as H. rewrite E in H.
    simpl in H. subst s'. unfold Layout.clause. simpl.
    now rewrite !sapp_assoc.
Qed.

Lemma generate_libraries_string_text d :
  generate_libraries_string d = Layout.imports_text d.
Proof.
  unfold generate_libraries_string, Layout.imports_text.
  rewrite libraries_loop_text. now rewrite !sapp_assoc.
Qed.

(** ** The loops over the array fields *)

Lemma nth_at {A} (l1 l2 : list A) (x : A) (k : nat) :
  length l1 = k -> Py.nth (l1 ++ x :: l2)%list k = Ok x.
Proof. intros <-. apply nth_middle. Qed.

Lemma insert_at {A} (l1 l2 : list A) (x y : A) (k : nat) :
  length l1 = k -> <[k := y]> (l1 ++ x :: l2)%list = (l1 ++ y :: l2)%list.
Proof. intros <-. apply insert_middle. Qed.

Lemma length_snoc {A} (l : list A) (x : A) (k : nat) :
  length l = k -> length (l ++ [x]) = S k.
Proof. intros <-. rewrite length_app. simpl. lia. Qed.

Lemma indices_of_from tag fs :
  indices_of tag (map Layout.kind fs)
  = Layout.indices_from 0 tag Layout.kind fs.
Proof. reflexivity. Qed.

Lemma emit_fixed_layout kf tf rows : forall k ps pl pk pt extra s,
  length ps = k -> length pl = k -> length pk = k -> length pt = k ->
  emit_fixed (ps ++ map Layout.name rows ++ extra)
    (pl ++ map Layout.bound rows)
    (Layout.indices_from k fixed_length kf rows)
    (Emit s (pk ++ map kf rows) (pt ++ map tf rows)) =
  Ok (Emit
        (s ++ Layout.concat
                (map (fun f => Layout.sequence_line "L"
                                 (Py.str (Layout.bound f)) tf f)
                   (List.filter
                      (fun f => field_type_eqb (kf f) fixed_length) rows)))
        (pk ++ map (Layout.kind_after fixed_length kf) rows)
        (pt ++ map (Layout.type_after fixed_length "L" kf tf) rows)).
Proof.
  induction rows as [|f rows IH]; intros k ps pl pk pt extra s Hps Hpl Hpk Hpt.
  - simpl. now rewrite sapp_nil_r.
  - specialize (IH (S k) (ps ++ [Layout.name f])%list
                  (pl ++ [Layout.bound f])%list).
    unfold Layout.indices_from in *. simpl.
    unfold Layout.kind_after at 1, Layout.type_after at 1.
    destruct (field_type_eqb (kf f) fixed_length) eqn:E; simpl.
    + rewrite (nth_at ps _ _ k Hps). simpl.
      rewrite (nth_at pl _ _ k Hpl). simpl.
      rewrite (nth_at pt _ _ k Hpt). simpl.
      rewrite (insert_at pk _ _ _ k Hpk), (insert_at pt _ _ _ k Hpt).
      specialize (IH (pk ++ [simple])%list
                    (pt ++ [("L" ++ hyphenate (Layout.name f))%string])%list
                    extra).
      rewrite <- !app_assoc in IH. simpl in IH.
      rewrite IH by now apply length_snoc.
      f_equal. f_equal.
      unfold Layout.sequence_line. str_norm. reflexivity.
    + specialize (IH (pk ++ [kf f])%list (pt ++ [tf f])%list extra).
      rewrite <- !app_assoc in IH. simpl in IH.
      rewrite IH by now apply length_snoc.
      reflexivity.
Qed.

Lemma emit_variable_layout kf tf rows : forall k ps pk pt extra s,
  length ps = k -> length pk = k -> length pt = k ->
  emit_variable (ps ++ map Layout.name rows ++ extra)
    (Layout.indices_from k variable_length kf rows)
    (Emit s (pk ++ map kf rows) (pt ++ map tf rows)) =
  Ok (Emit
        (s ++ Layout.concat
                (map (Layout.sequence_line "V" "256" tf)
                   (List.filter
                      (fun f => field_type_eqb (kf f) variable_length) rows)))
        (pk ++ map (Layout.kind_after variable_length kf) rows)
        (pt ++ map (Layout.type_after variable_length "V" kf tf) rows)).
Proof.
  induction rows as [|f rows IH]; intros k ps pk pt extra s Hps Hpk Hpt.
  - simpl. now rewrite sapp_nil_r.
  - specialize (IH (S k) (ps ++ [Layout.name f])%list).
    unfold Layout.indices_from in *. simpl.
    unfold Layout.kind_after at 1, Layout.type_after at 1.
    destruct (field_type_eqb (kf f) variable_length) eqn:E; simpl.
    + rewrite (nth_at ps _ _ k Hps). simpl.
      rewrite (nth_at pt _ _ k Hpt). simpl.
      rewrite (insert_at pk _ _ _ k Hpk), (insert_at pt _ _ _ k Hpt).
      specialize (IH (pk ++ [simple])%list
                    (pt ++ [("V" ++ hyphenate (Layout.name f))%string])%list
                    extra).
      rewrite <- !app_assoc in IH. simpl in IH.
      rewrite IH by now apply length_snoc.
      f_equal. f_equal.
      unfold Layout.sequence_line. str_norm. reflexivity.
    + specialize (IH (pk ++ [kf f])%list (pt ++ [tf f])%list extra).
      rewrite <- !app_assoc in IH. simpl in IH.
      rewrite IH by now apply length_snoc.
      reflexivity.
Qed.

(** ** The record body *)

Lemma rename_slot_at ps slot rest ty k :
  length ps = k ->
  rename_slot (ps ++ slot :: rest) k ty =
  Ok (ps ++ Layout.renamed slot ty :: rest)%list.
Proof.
  intros Hk. unfold rename_slot, Layout.renamed.
  rewrite (nth_at ps _ _ k Hk). simpl.
  destruct (String.eqb slot "type").
  - rewrite (insert_at ps _ _ _ k Hk), (nth_at ps _ _ k Hk). simpl.
    destruct (String.eqb _ _); [|reflexivity].
    now rewrite (insert_at ps _ _ _ k Hk).
  - rewrite (nth_at ps _ _ k Hk). simpl.
    destruct (String.eqb _ _); [|reflexivity].
    now rewrite (insert_at ps _ _ _ k Hk).
Qed.

Lemma emit_fields_layout rows : forall k ps pk pt extra s comma,
  length ps = k -> length pk = k -> length pt = k ->
  emit_fields (pk ++ map (fun _ => simple) rows)
    (pt ++ map Layout.effective_type rows)
    (seq k (length rows))
    (ps ++ map Layout.name rows ++ extra) s comma =
  ((ps ++ map (fun f => Layout.renamed (Layout.name f)
                          (Layout.effective_type f)) rows ++ extra)%list,
   Ok (s ++ Layout.fields_text comma rows)).
Proof.
  induction rows as [|f rows IH]; intros k ps pk pt extra s comma Hps Hpk Hpt.
  - simpl. now rewrite sapp_nil_r.
  - simpl. rewrite (nth_at pk _ _ k Hpk). simpl.
    rewrite (nth_at pt _ _ k Hpt). simpl.
    rewrite (rename_slot_at ps _ _ _ k Hps). simpl.
    rewrite (nth_at ps _ _ k Hps). simpl.
    specialize (IH (S k)
                  (ps ++ [Layout.renamed (Layout.name f)
                            (Layout.effective_type f)])%list
                  (pk ++ [simple])%list
                  (pt ++ [Layout.effective_type f])%list extra).
    rewrite <- !app_assoc in IH. simpl in IH.
    rewrite IH by now apply length_snoc.
    f_equal. f_equal. unfold Layout.body_field, Layout.emitted_name.
    str_norm. reflexivity.
Qed.

Lemma fields_text_join fs :
  Layout.fields_text "" fs = Layout.join ("," ++ nl) (map Layout.body_field fs).
Proof.
  destruct fs as [|f fs]; [reflexivity|].
  cbn [Layout.fields_text map]. cbn [String.append].
  revert f. induction fs as [|g fs IH]; intros f.
  - simpl. now rewrite sapp_nil_r.
  - cbn [Layout.fields_text map Layout.join]. rewrite IH. reflexivity.
Qed.

Lemma emit_body_layout msg_name fs extra s :
  emit_body msg_name (length fs) (map (fun _ => simple) fs)
    (map Layout.effective_type fs) (map Layout.name fs ++ extra) s =
  ((map (fun f => Layout.renamed (Layout.name f) (Layout.effective_type f)) fs
      ++ extra)%list,
   Ok (s ++ Layout.body msg_name fs)).
Proof.
  unfold emit_body, Layout.body.
  destruct fs as [|f [|g fs]].
  - simpl. f_equal. f_equal. str_norm. reflexivity.
  - cbn [length Nat.eqb map]. change (Py.nth [simple] 0) with (Ok simple).
    cbn [field_type_eqb]. change (Py.nth [Layout.effective_type f] 0)
      with (Ok (Layout.effective_type f)).
    cbn [mbind res_bind].
    rewrite (rename_slot_at [] (Layout.name f) extra _ 0 eq_refl).
    cbn [mbind res_bind app]. 
    change (Py.nth (?x :: extra) 0) with (Ok x).
    cbn [mbind res_bind]. f_equal. f_equal.
    unfold Layout.body_field, Layout.emitted_name. cbn [Layout.join map].
    str_norm. reflexivity.
  - set (rows := f :: g :: fs).
    replace (length rows =? 1)%nat with false by reflexivity.
    pose proof (emit_fields_layout rows 0 [] [] [] extra) as H.
    cbn [app] in H. rewrite H by reflexivity.
    f_equal. f_equal. rewrite fields_text_join. str_norm. reflexivity.
Qed.

Lemma slots_after_names fs extra :
  Layout.slots_after (map Layout.name fs ++ extra) fs =
  (map (fun f => Layout.renamed (Layout.name f) (Layout.effective_type f)) fs
     ++ extra)%list.
Proof.
  induction fs as [|f fs IH]; simpl.
  - now destruct extra.
  - now rewrite IH.
Qed.

Lemma indices_from_after rows : forall k,
  Layout.indices_from k variable_length
    (Layout.kind_after fixed_length Layout.kind) rows =
  Layout.indices_from k variable_length Layout.kind rows.
Proof.
  unfold Layout.indices_from. intros k. rewrite !length_map. revert k.
  induction rows as [|f rows IH]; intros k; [reflexivity|].
  simpl. unfold Layout.kind_after at 1.
  destruct (Layout.kind f); simpl; now rewrite IH.
Qed.

(** The two loops over the array fields: the auxiliary definitions they
    write, and what they leave in [field_types] and [slot_asn1_types]. *)
Lemma array_loops_layout fs extra s :
  (st ← emit_fixed (map Layout.name fs ++ extra) (map Layout.bound fs)
          (indices_of fixed_length (map Layout.kind fs))
          (Emit s (map Layout.kind fs) (map Layout.asn1 fs));
   emit_variable (map Layout.name fs ++ extra)
     (indices_of variable_length (map Layout.kind fs)) st) =
  Ok (Emit (s ++ Layout.sequences fs) (map (fun _ => simple) fs)
        (map Layout.effective_type fs)).
Proof.
  rewrite !indices_of_from.
  pose proof (emit_fixed_layout Layout.kind Layout.asn1 fs 0 [] [] [] [] extra)
    as HF.
  cbn [app] in HF. rewrite HF by reflexivity. cbn [mbind res_bind].
  rewrite <- indices_from_after.
  pose proof (emit_variable_layout (Layout.kind_after fixed_length Layout.kind)
                (Layout.type_after fixed_length "L" Layout.kind Layout.asn1)
                fs 0 [] [] [] extra) as HV.
  cbn [app] in HV. rewrite HV by reflexivity.
  assert (Hk : map (Layout.kind_after variable_length
                      (Layout.kind_after fixed_length Layout.kind)) fs
               = map (fun _ => simple) fs).
  { apply map_ext. intros f. unfold Layout.kind_after.
    now destruct (Layout.kind f). }
  assert (Ht : map (Layout.type_after variable_length "V"
                      (Layout.kind_after fixed_length Layout.kind)
                      (Layout.type_after fixed_length "L" Layout.kind
                         Layout.asn1)) fs
               = map Layout.effective_type fs).
  { apply map_ext. intros f.
    unfold Layout.type_after, Layout.kind_after, Layout.effective_type.
    now destruct (Layout.kind f). }
  rewrite Hk, Ht. f_equal. f_equal. unfold Layout.sequences.
  assert (HL : map (fun f => Layout.sequence_line "L"
                               (Py.str (Layout.bound f)) Layout.asn1 f)
                 (List.filter
                    (fun f => field_type_eqb (Layout.kind f) fixed_length) fs)
               = map Layout.sequence_definition
                   (List.filter (Layout.has_kind fixed_length) fs)).
  { apply map_ext_in. intros f Hf. apply filter_In in Hf as [_ Hf].
    unfold Layout.has_kind in Hf. cbv beta in Hf.
    unfold Layout.sequence_line, Layout.sequence_definition,
      Layout.effective_type, Layout.cap.
    destruct (Layout.kind f); try discriminate. str_norm. reflexivity. }
  assert (HVl : map (Layout.sequence_line "V" "256"
                       (Layout.type_after fixed_length "L" Layout.kind
                          Layout.asn1))
                  (List.filter
                     (fun f => field_type_eqb
                                 (Layout.kind_after fixed_length Layout.kind f)
                                 variable_length) fs)
                = map Layout.sequence_definition
                    (List.filter (Layout.has_kind variable_length) fs)).
  { replace (List.filter
               (fun f => field_type_eqb
                           (Layout.kind_after fixed_length Layout.kind f)
                           variable_length) fs)
      with (List.filter (Layout.has_kind variable_length) fs).
    - apply map_ext_in. intros f Hf. apply filter_In in Hf as [_ Hf].
      unfold Layout.has_kind in Hf.
      unfold Layout.sequence_line, Layout.sequence_definition,
        Layout.effective_type, Layout.cap, Layout.type_after.
      destruct (Layout.kind f); try discriminate. str_norm. reflexivity.
    - apply filter_ext. intros f.
      unfold Layout.has_kind, Layout.kind_after.
      now destruct (Layout.kind f). }
  rewrite HL, HVl. str_norm. reflexivity.
Qed.

(** ** The translation of a record, field by field *)

(** When every field is classified, [translate] returns the module text, the
    dependencies and the renamed [slots] described in [Layout]. *)
Lemma translate_layout msg_name slots slot_types fs :
  Layout.classify_all slots slot_types = Ok fs ->
  translate msg_name slots slot_types =
  (Layout.slots_after slots fs,
   Ok (Layout.module_text msg_name fs, Layout.dependencies fs)).
Proof.
  intros H. destruct (classify_all_shape _ _ _ H) as [Hs Hl].
  set (extra := drop (length fs) slots) in Hs.
  unfold translate. rewrite (scan_slot_types_layout _ _ _ scan0 H).
  cbn [import_libraries slot_asn1_types field_types lengths msg_deps scan0 app].
  rewrite collect_imports, generate_libraries_string_text.
  rewrite Hs, array_loops_layout.
  cbn [e_msg_string e_field_types e_slot_asn1_types].
  rewrite <- Hl, emit_body_layout, slots_after_names.
  f_equal. f_equal. f_equal.
  unfold Layout.module_text, Layout.header. str_norm. reflexivity.
Qed.

(** ** A translation that returns has classified every field *)

Lemma nth_lookup {A} (l : list A) i x : Py.nth l i = Ok x -> l !! i = Some x.
Proof.
  unfold Py.nth. destruct (l !! i); intros H; inversion H. reflexivity.
Qed.

Lemma nth_in_range {A} (l : list A) i x :
  Py.nth l i = Ok x -> (i < length l)%nat.
Proof. intros H. apply nth_lookup in H. now apply lookup_lt_Some in H. Qed.

(** The loop over [slot_types] does not look at [slots]: when it returns,
    the fields classify under any names. *)
Lemma scan_classify slot_types : forall a a' slots,
  scan_slot_types slot_types a = Ok a' ->
  (length slot_types <= length slots)%nat ->
  exists fs, Layout.classify_all slots slot_types = Ok fs.
Proof.
  induction slot_types as [|st sts IH]; intros a a' slots H Hl; simpl in *.
  - now exists [].
  - destruct slots as [|slot slots]; simpl in Hl; [lia|].
    unfold Layout.classify, mbind, res_bind in *.
    destruct (find_field_type st) as [[[b k] n]|]; [|discriminate].
    destruct (find_ASN1_type b) as [[[ty l] p]|]; [|discriminate].
    destruct (IH _ _ slots H) as [fs ->]; [lia|]. eauto.
Qed.

Lemma lookup_insert_simple (l : list field_type) i k :
  l !! k = Some simple -> <[i := simple]> l !! k = Some simple.
Proof.
  intros H. destruct (Nat.eq_dec i k) as [->|Hne].
  - apply list_lookup_insert_eq. now apply lookup_lt_Some in H.
  - now rewrite list_lookup_insert_ne.
Qed.

Lemma emit_fixed_returns slots lens indices : forall st st',
  emit_fixed slots lens indices st = Ok st' ->
  (forall i, In i indices -> (i < length slots)%nat) /\
  (forall k, e_field_types st !! k = Some simple ->
             e_field_types st' !! k = Some simple).
Proof.
  induction indices as [|i rest IH]; intros st st' H; simpl in H.
  - inversion H; subst. split; [intros i []|auto].
  - unfold mbind, res_bind in H.
    destruct (Py.nth slots i) as [slot|] eqn:Es; [|discriminate].
    destruct (Py.nth lens i) as [n|]; [|discriminate].
    destruct (Py.nth (e_slot_asn1_types st) i) as [ty|]; [|discriminate].
    apply IH in H as [H1 H2]. cbn [e_field_types] in H2. split.
    + intros j [<-|Hj]; [now apply nth_in_range in Es | now apply H1].
    + intros k Hk. now apply H2, lookup_insert_simple.
Qed.

Lemma emit_variable_returns slots indices : forall st st',
  emit_variable slots indices st = Ok st' ->
  (forall i, In i indices -> (i < length slots)%nat) /\
  (forall k, e_field_types st !! k = Some simple ->
             e_field_types st' !! k = Some simple).
Proof.
  induction indices as [|i rest IH]; intros st st' H; simpl in H.
  - inversion H; subst. split; [intros i []|auto].
  - unfold mbind, res_bind in H.
    destruct (Py.nth slots i) as [slot|] eqn:Es; [|discriminate].
    destruct (Py.nth (e_slot_asn1_types st) i) as [ty|]; [|discriminate].
    apply IH in H as [H1 H2]. cbn [e_field_types] in H2. split.
    + intros j [<-|Hj]; [now apply nth_in_range in Es | now apply H1].
    + intros k Hk. now apply H2, lookup_insert_simple.
Qed.

Lemma indices_of_lookup tag fts k :
  fts !! k = Some tag -> In k (indices_of tag fts).
Proof.
  unfold indices_of, Py.enumerate. intros H.
  assert (G : forall (l : list field_type) n j, l !! j = Some tag ->
    In (n + j)%nat
      (map fst (List.filter (fun p => field_type_eqb (snd p) tag)
                  (combine (seq n (length l)) l)))).
  { induction l as [|x l IH]; intros n [|j] Hj; try discriminate; simpl in *.
    - inversion Hj; subst.
      replace (field_type_eqb tag tag) with true by now destruct tag.
      left. simpl. lia.
    - specialize (IH (S n) j Hj).
      replace (n + S j)%nat with (S n + j)%nat by lia.
      destruct (field_type_eqb x tag); [right|]; exact IH. }
  exact (G fts 0%nat k H).
Qed.

Lemma rename_slot_returns slots i ty slots' :
  rename_slot slots i ty = Ok slots' ->
  (i < length slots)%nat /\ length slots' = length slots.
Proof.
  unfold rename_slot, mbind, res_bind. intros H.
  destruct (Py.nth slots i) as [slot|] eqn:E1; [|discriminate].
  apply nth_in_range in E1. split; [assumption|].
  destruct (Py.nth _ i) as [slot1|]; [|discriminate].
  inversion H; subst.
  destruct (String.eqb slot "type"), (String.eqb _ (Py.lower ty));
    now rewrite ?length_insert.
Qed.

Lemma renaming_returns tys i slots r :
  (ty ← Py.nth tys i;
   slots' ← rename_slot slots i ty;
   slot ← Py.nth slots' i;
   Ok (slots', slot, ty)) = Ok r ->
  (i < length slots)%nat /\ length (fst (fst r)) = length slots.
Proof.
  unfold mbind, res_bind. intros H.
  destruct (Py.nth tys i) as [ty|]; [|discriminate].
  destruct (rename_slot slots i ty) as [slots'|] eqn:E; [|discriminate].
  destruct (Py.nth slots' i); inversion H; subst.
  now apply rename_slot_returns in E.
Qed.

Lemma emit_fields_returns fts tys indices : forall slots s comma slots' s',
  emit_fields fts tys indices slots s comma = (slots', Ok s') ->
  forall i, In i indices -> fts !! i = Some simple ->
            (i < length slots)%nat.
Proof.
  induction indices as [|j rest IH];
    intros slots s comma slots' s' H i Hi Hs; simpl in *; [destruct Hi|].
  destruct (Py.nth fts j) as [ft|] eqn:Ef; [|discriminate].
  apply nth_lookup in Ef.
  destruct (field_type_eqb ft simple) eqn:Eft.
  - destruct (_ ← Py.nth tys j; _) as [[[slots1 slot] ty]|] eqn:E;
      [|discriminate].
    apply renaming_returns in E as [E1 E2]. cbn [fst] in E2.
    destruct Hi as [<-|Hi]; [assumption|].
    rewrite <- E2. eapply IH; eassumption.
  - destruct Hi as [<-|Hi].
    + rewrite Hs in Ef. inversion Ef; subst. discriminate.
    + eapply IH; eassumption.
Qed.

Lemma emit_body_returns msg_name num_fields fts tys slots s slots' s' :
  emit_body msg_name num_fields fts tys slots s = (slots', Ok s') ->
  forall k, (k < num_fields)%nat -> fts !! k = Some simple ->
            (k < length slots)%nat.
Proof.
  unfold emit_body. intros H k Hk Hs.
  destruct (Nat.eqb_spec num_fields 1) as [->|Hn].
  - assert (k = 0%nat) as -> by lia.
    unfold Py.nth at 1 in H. rewrite Hs in H. cbn [field_type_eqb] in H.
    destruct (_ ← Py.nth tys 0; _) as [[[slots1 slot] ty]|] eqn:E;
      [|discriminate].
    now apply renaming_returns in E as [E1 _].
  - destruct (emit_fields _ _ _ _ _ _) as [slots1 [s1|e]] eqn:E;
      [|discriminate].
    eapply emit_fields_returns; [exact E | | exact Hs].
    apply in_seq. lia.
Qed.

(** When [translate] returns a text, there was a name in [slots] for every
    entry of [slot_types], and every field classifies. *)
Lemma translate_returns_classified msg_name slots slot_types slots' r :
  translate msg_name slots slot_types = (slots', Ok r) ->
  exists fs, Layout.classify_all slots slot_types = Ok fs.
Proof.
  unfold translate. intros H.
  destruct (scan_slot_types slot_types scan0) as [a|] eqn:Ea;
    [|discriminate].
  destruct (le_lt_dec (length slot_types) (length slots)) as [Hle|Hlt];
    [now apply (scan_classify _ _ _ _ Ea)|exfalso].
  destruct (scan_classify _ _ _
              (slots ++ replicate (length slot_types) "")%list Ea)
    as [fs Hfs].
  { rewrite length_app, length_replicate. lia. }
  rewrite (scan_slot_types_layout _ _ _ scan0 Hfs) in Ea.
  inversion Ea; subst a; clear Ea.
  cbn [import_libraries slot_asn1_types field_types lengths msg_deps scan0
       app] in H.
  destruct (classify_all_shape _ _ _ Hfs) as [_ Hlen].
  unfold mbind, res_bind in H.
  destruct (emit_fixed _ _ _ _) as [st1|] eqn:E1; [|discriminate].
  destruct (emit_variable _ _ _) as [st|] eqn:E2; [|discriminate].
  destruct (emit_body _ _ _ _ _ _) as [slots1 [s1|e]] eqn:E3;
    [|discriminate].
  apply emit_fixed_returns in E1 as [F1 F2].
  apply emit_variable_returns in E2 as [V1 V2].
  cbn [e_field_types] in F2.
  destruct (lookup_lt_is_Some_2 (map Layout.kind fs) (length slots))
    as [ft Hft].
  { rewrite length_map. lia. }
  assert (Hk : (length slots < length slots)%nat); [|lia].
  destruct ft.
  - eapply emit_body_returns; [exact E3 | exact Hlt | now apply V2, F2].
  - now apply V1, indices_of_lookup.
  - now apply F1, indices_of_lookup.
Qed.

(** What a translation that returns has returned. *)
Lemma translate_returns_layout msg_name slots slot_types slots' text deps :
  translate msg_name slots slot_types = (slots', Ok (text, deps)) ->
  exists fs,
    Layout.classify_all slots slot_types = Ok fs /\
    slots' = Layout.slots_after slots fs /\
    text = Layout.module_text msg_name fs /\
    deps = Layout.dependencies fs.
Proof.
  intros H. destruct (translate_returns_classified _ _ _ _ _ H) as [fs Hfs].
  exists fs. rewrite (translate_layout _ _ _ _ Hfs) in H.
  inversion H; subst. auto.
Qed.

(** * The type mapper and the field classifier *)

(** C4: [find_field_type] on a scalar, a fixed-length array, a
    variable-length array, and a bracket whose content is not an integer
    literal: the last one raises the [ValueError] of [int], it is not read
    as a number. *)
Theorem find_field_type_examples :
  find_field_type "int32" = Ok ("int32", simple, 1) /\
  find_field_type "int32[4]" = Ok ("int32", fixed_length, 4) /\
  find_field_type "string[]" = Ok ("string", variable_length, 1) /\
  find_field_type "int32[x]" = Raise ValueError.
Proof. repeat split; reflexivity. Qed.

(** C1: what [find_ASN1_type] returns for the sixteen primitive type names.
    Ten of them are mapped to their library; [bool], [uint8], [uint16] and
    [uint64] raise [KeyError], because [libraries] has the keys [T_Boolean],
    [T-Uint8], [T-Uint16] and [T-Uint64] where [primitive_types_map] gives
    [T-Boolean], [T-UInt8], [T-UInt16] and [T-UInt64]; [byte] and [char] are
    in [primitive_types_map] and not in [ros_primitive_type], and raise
    [IndexError]. *)
Theorem find_ASN1_type_primitives :
  map find_ASN1_type
    ["bool"; "int8"; "uint8"; "int16"; "uint16"; "int32"; "uint32"; "int64";
     "uint64"; "float32"; "float64"; "string"; "time"; "duration"; "byte";
     "char"] =
  [Raise KeyError;
   Ok ("T-Int8", "TASTE-BasicTypes", true);
   Raise KeyError;
   Ok ("T-Int16", "TASTE-ExtendedTypes", true);
   Raise KeyError;
   Ok ("T-Int32", "TASTE-BasicTypes", true);
   Ok ("T-UInt32", "TASTE-BasicTypes", true);
   Ok ("T-Int64", "TASTE-ExtendedTypes", true);
   Raise KeyError;
   Ok ("T-Float", "TASTE-ExtendedTypes", true);
   Ok ("T-Double", "TASTE-ExtendedTypes", true);
   Ok ("T-String", "TASTE-ExtendedTypes", true);
   Ok ("Time", "Time-Types", true);
   Ok ("Duration", "Time-Types", true);
   Raise IndexError;
   Raise IndexError].
Proof. reflexivity. Qed.

(** * The record translator *)

(** C10: a record without fields is translated without error: the import
    section is the empty clause, the body is the many-field structure with
    nothing in it, and there is no dependency; [slots] is left as it is.
    So is [std_msgs/Empty] through [process_msg]. *)
Theorem translate_no_fields (msg_name : string) (slots : list string) :
  translate msg_name slots [] =
  (slots,
   Ok (msg_name ++ "-Types DEFINITIONS ::=" ++ nl ++ "BEGIN" ++ nl
       ++ "IMPORTS ;" ++ nl
       ++ msg_name ++ "::=" ++ nl ++ "SEQUENCE" ++ nl ++ "{" ++ nl
       ++ nl ++ "}" ++ nl
       ++ "END", [])) /\
  process_msg empty_ros "std_msgs/Empty" =
  (empty_ros,
   Ok (Some ("Empty-Types DEFINITIONS ::=" ++ nl ++ "BEGIN" ++ nl
             ++ "IMPORTS ;" ++ nl
             ++ "Empty::=" ++ nl ++ "SEQUENCE" ++ nl ++ "{" ++ nl
             ++ nl ++ "}" ++ nl
             ++ "END", []))).
Proof.
  split; [|reflexivity].
  rewrite (translate_layout msg_name slots [] [] eq_refl).
  destruct slots; cbn [Layout.slots_after]; f_equal; f_equal; f_equal;
    unfold Layout.module_text, Layout.header, Layout.imports_text,
      Layout.sequences, Layout.body;
    cbn [Layout.imports Layout.first_seen map List.filter Layout.concat
         Layout.join]; str_norm; reflexivity.
Qed.

Lemma concat_app l1 l2 :
  Layout.concat (l1 ++ l2) = Layout.concat l1 ++ Layout.concat l2.
Proof.
  induction l1 as [|x l1 IH]; simpl; [reflexivity|].
  now rewrite IH, sapp_assoc.
Qed.

Lemma concat_In x l :
  In x l -> exists pre post, Layout.concat l = pre ++ x ++ post.
Proof.
  intros H. apply in_split in H as (l1 & l2 & ->).
  exists (Layout.concat l1), (Layout.concat l2).
  rewrite concat_app. reflexivity.
Qed.

Lemma join_In sep x l :
  In x l -> exists pre post, Layout.join sep l = pre ++ x ++ post.
Proof.
  induction l as [|y l IH]; [intros []|].
  intros [->|H].
  - destruct l as [|z l].
    + exists "", "". simpl. now rewrite sapp_nil_r.
    + exists "", (sep ++ Layout.join sep (z :: l)). reflexivity.
  - destruct l as [|z l]; [destruct H|].
    destruct (IH H) as (pre & post & E).
    exists (y ++ sep ++ pre), post.
    cbn [Layout.join] in *. rewrite E. str_norm. reflexivity.
Qed.

Lemma hyphenate_chars s :
  chars (hyphenate s) = map hyphen_for_underscore (chars s).
Proof.
  unfold hyphenate, hyphen_for_underscore.
  induction s as [|c s IH]; simpl; [reflexivity | now rewrite IH].
Qed.

(** C5: the claim fails on an array of [uint8].  The type [uint8[10]] is a
    fixed-length array of [uint8], whose notation type [T-UInt8] is no key
    of [libraries], where the key is spelt [T-Uint8]: [find_ASN1_type]
    raises [KeyError], and so does the translation of a record with such a
    field, fixed-length or variable-length; no auxiliary type is
    synthesized.  The record of the claim, with the field [data] of type
    [float32[10]], is translated as the claim says. *)
Theorem array_of_uint8_raises :
  find_field_type "uint8[10]" = Ok ("uint8", fixed_length, 10) /\
  Dict.get primitive_types_map "uint8" = Ok "T-UInt8" /\
  Dict.has libraries "T-UInt8" = false /\
  Dict.get libraries "T-Uint8" = Ok "TASTE-BasicTypes" /\
  find_ASN1_type "uint8" = Raise KeyError /\
  translate "X" ["data"] ["uint8[10]"] = (["data"], Raise KeyError) /\
  translate "X" ["data"] ["uint8[]"] = (["data"], Raise KeyError) /\
  translate "X" ["data"] ["float32[10]"] =
    (["data"],
     Ok ("X-Types DEFINITIONS ::=" ++ nl ++ "BEGIN" ++ nl
         ++ "IMPORTS T-Float FROM TASTE-ExtendedTypes ;" ++ nl
         ++ "Ldata::= SEQUENCE (SIZE(0..10)) OF T-Float" ++ nl
         ++ "X::=" ++ nl ++ "SEQUENCE" ++ nl ++ "{" ++ nl
         ++ tab ++ "data" ++ tab ++ "Ldata" ++ nl ++ "}" ++ nl
         ++ "END", [])).
Proof. repeat split; reflexivity. Qed.

(** X19.  The array fields of a record whose translation returns a text:
    every fixed-length field gets the auxiliary definition
    [L<name>::= SEQUENCE (SIZE(0..N)) OF <notation type>] and every
    variable-length field [V<name>::= SEQUENCE (SIZE(0..256)) OF ...], the
    name with a hyphen for every underscore; the two loops leave every
    field [simple] with the synthesized name as its type, which is the type
    the body gives the field. *)
Theorem array_fields_rewritten (msg_name : string)
    (slots slot_types slots' : list string) (text : string)
    (deps : list string) :
  translate msg_name slots slot_types = (slots', Ok (text, deps)) ->
  exists fs,
    Layout.classify_all slots slot_types = Ok fs /\
    (forall f, In f fs ->
       exists slot_type,
         In (Layout.name f) slots /\ In slot_type slot_types /\
         find_field_type slot_type
           = Ok (Layout.base f, Layout.kind f, Layout.bound f) /\
         find_ASN1_type (Layout.base f)
           = Ok (Layout.asn1 f, Layout.lib f, Layout.primitive f)) /\
    (forall s,
       (st ← emit_fixed slots (map Layout.bound fs)
               (indices_of fixed_length (map Layout.kind fs))
               (Emit s (map Layout.kind fs) (map Layout.asn1 fs));
        emit_variable slots
          (indices_of variable_length (map Layout.kind fs)) st)
       = Ok (Emit (s ++ Layout.sequences fs) (map (fun _ => simple) fs)
               (map Layout.effective_type fs))) /\
    text = Layout.header msg_name ++ Layout.imports_text (Layout.imports fs)
           ++ Layout.sequences fs ++ Layout.body msg_name fs ++ "END" /\
    (forall f, In f fs -> Layout.kind f = fixed_length ->
       let synthesized := "L" ++ hyphenate (Layout.name f) in
       Layout.effective_type f = synthesized /\
       (exists pre post,
          Layout.sequences fs =
          pre ++ (synthesized ++ "::= SEQUENCE (SIZE(0.."
                  ++ Py.str (Layout.bound f) ++ ")) OF " ++ Layout.asn1 f
                  ++ nl)
          ++ post) /\
       (exists pre post,
          Layout.body msg_name fs =
          pre ++ (tab ++ Layout.emitted_name f ++ tab ++ synthesized)
          ++ post)) /\
    (forall f, In f fs -> Layout.kind f = variable_length ->
       let synthesized := "V" ++ hyphenate (Layout.name f) in
       Layout.effective_type f = synthesized /\
       (exists pre post,
          Layout.sequences fs =
          pre ++ (synthesized ++ "::= SEQUENCE (SIZE(0..256)) OF "
                  ++ Layout.asn1 f ++ nl)
          ++ post) /\
       (exists pre post,
          Layout.body msg_name fs =
          pre ++ (tab ++ Layout.emitted_name f ++ tab ++ synthesized)
          ++ post)) /\
    (forall s, chars (hyphenate s) = map hyphen_for_underscore (chars s)).
Proof.
  intros Ht.
  destruct (translate_returns_layout _ _ _ _ _ _ Ht)
    as (fs & H & _ & -> & _).
  exists fs. split; [exact H|].
  assert (Hbody : forall f, In f fs -> exists pre post,
            Layout.body msg_name fs =
            pre ++ (tab ++ Layout.emitted_name f ++ tab
                    ++ Layout.effective_type f) ++ post).
  { intros f Hf.
    destruct (join_In ("," ++ nl) (Layout.body_field f)
                (map Layout.body_field fs)) as (pre & post & E).
    { now apply in_map. }
    exists (msg_name ++ "::=" ++ nl ++ "SEQUENCE" ++ nl ++ "{" ++ nl ++ pre),
      (post ++ nl ++ "}" ++ nl).
    unfold Layout.body. rewrite E. unfold Layout.body_field.
    str_norm. reflexivity. }
  split; [|split; [|split; [|split; [|split]]]].
  - now apply classify_all_In.
  - intros s. destruct (classify_all_shape _ _ _ H) as [-> _].
    apply array_loops_layout.
  - unfold Layout.module_text. reflexivity.
  - intros f Hf Hk synthesized.
    assert (He : Layout.effective_type f = synthesized).
    { unfold Layout.effective_type. now rewrite Hk. }
    split; [exact He|]. split.
    + destruct (concat_In (Layout.sequence_definition f)
                  (map Layout.sequence_definition
                     (List.filter (Layout.has_kind fixed_length) fs)))
        as (pre & post & E).
      { apply in_map, filter_In. split; [assumption|].
        unfold Layout.has_kind. now rewrite Hk. }
      exists pre,
        (post ++ Layout.concat
                   (map Layout.sequence_definition
                      (List.filter (Layout.has_kind variable_length) fs))).
      unfold Layout.sequences. rewrite E.
      unfold Layout.sequence_definition, Layout.cap. rewrite He, Hk.
      str_norm. reflexivity.
    + rewrite <- He. now apply Hbody.
  - intros f Hf Hk synthesized.
    assert (He : Layout.effective_type f = synthesized).
    { unfold Layout.effective_type. now rewrite Hk. }
    split; [exact He|]. split.
    + destruct (concat_In (Layout.sequence_definition f)
                  (map Layout.sequence_definition
                     (List.filter (Layout.has_kind variable_length) fs)))
        as (pre & post & E).
      { apply in_map, filter_In. split; [assumption|].
        unfold Layout.has_kind. now rewrite Hk. }
      exists (Layout.concat
                (map Layout.sequence_definition
                   (List.filter (Layout.has_kind fixed_length) fs)) ++ pre),
        post.
      unfold Layout.sequences. rewrite E.
      unfold Layout.sequence_definition, Layout.cap. rewrite He, Hk.
      str_norm. reflexivity.
    + rewrite <- He. now apply Hbody.
  - apply hyphenate_chars.
Qed.

Lemma array_fields_rewritten_witness :
  translate "X" ["joint_angles"; "names"] ["float32[10]"; "string[]"] =
    (["joint_angles"; "names"],
     Ok ("X-Types DEFINITIONS ::=" ++ nl ++ "BEGIN" ++ nl
         ++ "IMPORTS T-Float, T-String FROM TASTE-ExtendedTypes ;" ++ nl
         ++ "Ljoint-angles::= SEQUENCE (SIZE(0..10)) OF T-Float" ++ nl
         ++ "Vnames::= SEQUENCE (SIZE(0..256)) OF T-String" ++ nl
         ++ "X::=" ++ nl ++ "SEQUENCE" ++ nl ++ "{" ++ nl
         ++ tab ++ "joint-angles" ++ tab ++ "Ljoint-angles," ++ nl
         ++ tab ++ "names" ++ tab ++ "Vnames" ++ nl ++ "}" ++ nl
         ++ "END", [])) /\
  exists fs,
    Layout.classify_all ["joint_angles"; "names"] ["float32[10]"; "string[]"]
    = Ok fs /\
    forall f, In f fs -> Layout.kind f = fixed_length ->
      Layout.effective_type f = "L" ++ hyphenate (Layout.name f).
Proof.
  split; [reflexivity|].
  destruct (array_fields_rewritten "X" ["joint_angles"; "names"]
              ["float32[10]"; "string[]"] _ _ _ eq_refl)
    as (fs & H1 & _ & _ & _ & H2 & _).
  exists fs. split; [exact H1|].
  intros f Hf Hk. exact (proj1 (H2 f Hf Hk)).
Defined.

Lemma find_ASN1_type_composed base pkg nm rest :
  Py.mem base ros_primitive_type = false ->
  Py.split "/" base = pkg :: nm :: rest ->
  find_ASN1_type base = Ok (nm, nm ++ "-Types", false).
Proof.
  intros Hm Hs. unfold find_ASN1_type. rewrite Hm, Hs. reflexivity.
Qed.

Lemma find_ASN1_type_not_primitive base ty l :
  find_ASN1_type base = Ok (ty, l, false) ->
  Py.mem base ros_primitive_type = false /\
  l = ty ++ "-Types" /\
  exists pkg rest, Py.split "/" base = pkg :: ty :: rest.
Proof.
  unfold find_ASN1_type. intros H.
  destruct (Py.mem base ros_primitive_type).
  - unfold mbind, res_bind in H.
    destruct (Dict.get primitive_types_map base); [|discriminate].
    destruct (Dict.get libraries a); inversion H.
  - destruct (Py.split "/" base) as [|pkg [|nm rest]]; try discriminate.
    inversion H; subst. eauto.
Qed.

Lemma find_ASN1_type_composite base ty l p :
  Py.mem base ros_primitive_type = false ->
  find_ASN1_type base = Ok (ty, l, p) ->
  p = false /\ l = ty ++ "-Types" /\
  exists pkg rest, Py.split "/" base = pkg :: ty :: rest.
Proof.
  unfold find_ASN1_type. intros -> H.
  destruct (Py.split "/" base) as [|pkg [|nm rest]]; try discriminate.
  inversion H; subst. eauto.
Qed.

(** C3, as the script does it, for a record whose translation returns: a
    field whose base type is not in [ros_primitive_type] is not primitive;
    its base type has a [/], its notation type is the component after the
    first [/], which for a name [pkg/Name] is the last component, and its
    library is that component with [-Types]; the library is in the import
    map with the notation type among its types.  The dependencies are the
    base types of these fields, one entry for each field and in the order
    of the fields, duplicates kept.  The record with the field [pose] of
    type [geometry/Pose] has the dependency [geometry/Pose] and imports
    [Pose] from [Pose-Types]. *)
Theorem dependencies_of_composed_fields (msg_name : string)
    (slots slot_types slots' : list string) (text : string)
    (deps : list string) :
  translate msg_name slots slot_types = (slots', Ok (text, deps)) ->
  (exists fs,
     Layout.classify_all slots slot_types = Ok fs /\
     text = Layout.header msg_name ++ Layout.imports_text (Layout.imports fs)
            ++ Layout.sequences fs ++ Layout.body msg_name fs ++ "END" /\
     deps = map Layout.base
              (List.filter
                 (fun f => negb (Py.mem (Layout.base f) ros_primitive_type))
                 fs) /\
     forall f, In f fs ->
       Py.mem (Layout.base f) ros_primitive_type = false ->
       Layout.primitive f = false /\
       (exists pkg rest,
          Py.split "/" (Layout.base f) = pkg :: Layout.asn1 f :: rest) /\
       (forall pkg nm, Py.split "/" (Layout.base f) = [pkg; nm] ->
          Layout.asn1 f = lastComponentOf (Layout.base f) /\
          Layout.lib f = lastComponentOf (Layout.base f) ++ "-Types") /\
       Layout.lib f = Layout.asn1 f ++ "-Types" /\
       In (Layout.base f) deps /\
       exists ts, In (Layout.lib f, ts) (Layout.imports fs) /\
                  In (Layout.asn1 f) ts) /\
  translate "X" ["pose"] ["geometry/Pose"] =
    (["pose-field"],
     Ok ("X-Types DEFINITIONS ::=" ++ nl ++ "BEGIN" ++ nl
         ++ "IMPORTS Pose FROM Pose-Types ;" ++ nl
         ++ "X::=" ++ nl ++ "SEQUENCE" ++ nl ++ "{" ++ nl
         ++ tab ++ "pose-field" ++ tab ++ "Pose" ++ nl ++ "}" ++ nl
         ++ "END", ["geometry/Pose"])).
Proof.
  intros Ht. split; [|reflexivity].
  destruct (translate_returns_layout _ _ _ _ _ _ Ht)
    as (fs & H & _ & -> & ->).
  exists fs. split; [exact H|]. split; [reflexivity|].
  assert (Hflag : forall f, In f fs ->
            Layout.primitive f = Py.mem (Layout.base f) ros_primitive_type).
  { intros f Hf.
    destruct (classify_all_In _ _ _ H f Hf) as (st & _ & _ & _ & HA).
    unfold find_ASN1_type, mbind, res_bind in HA.
    destruct (Py.mem (Layout.base f) ros_primitive_type).
    - destruct (Dict.get primitive_types_map _); [|discriminate].
      destruct (Dict.get libraries _); now inversion HA.
    - destruct (Py.split "/" _) as [|pkg [|nm rest]]; now inversion HA. }
  assert (Hdeps : Layout.dependencies fs
                  = map Layout.base
                      (List.filter
                         (fun f => negb (Py.mem (Layout.base f)
                                           ros_primitive_type)) fs)).
  { unfold Layout.dependencies. f_equal. apply filter_ext_in.
    intros f Hf. now rewrite Hflag. }
  split; [exact Hdeps|].
  intros f Hf Hm.
  destruct (classify_all_In _ _ _ H f Hf) as (st & _ & _ & _ & HA).
  destruct (find_ASN1_type_composite _ _ _ _ Hm HA)
    as (Hp & Hl & pkg & rest & Hs).
  split; [exact Hp|]. split; [now exists pkg, rest|]. split.
  { intros pkg' nm E. unfold lastComponentOf. rewrite Hl, E.
    rewrite Hs in E. inversion E; subst. split; reflexivity. }
  split; [exact Hl|]. split.
  { unfold Layout.dependencies. apply in_map, filter_In.
    split; [assumption | now rewrite Hp]. }
  eexists. split.
  - unfold Layout.imports. apply in_map_iff. exists (Layout.lib f).
    split; [reflexivity|]. apply first_seen_In. now apply in_map.
  - apply first_seen_In. apply in_map, filter_In.
    split; [assumption | apply String.eqb_refl].
Qed.

Lemma dependencies_of_composed_fields_witness :
  translate "X" ["pose"; "n"] ["geometry/Pose"; "int32"] =
    (["pose-field"; "n"],
     Ok ("X-Types DEFINITIONS ::=" ++ nl ++ "BEGIN" ++ nl
         ++ "IMPORTS Pose FROM Pose-Types T-Int32 FROM TASTE-BasicTypes ;"
         ++ nl
         ++ "X::=" ++ nl ++ "SEQUENCE" ++ nl ++ "{" ++ nl
         ++ tab ++ "pose-field" ++ tab ++ "Pose," ++ nl
         ++ tab ++ "n" ++ tab ++ "T-Int32" ++ nl ++ "}" ++ nl
         ++ "END", ["geometry/Pose"])) /\
  exists fs,
    Layout.classify_all ["pose"; "n"] ["geometry/Pose"; "int32"] = Ok fs /\
    ["geometry/Pose"]
    = map Layout.base
        (List.filter
           (fun f => negb (Py.mem (Layout.base f) ros_primitive_type)) fs).
Proof.
  split; [reflexivity|].
  destruct (proj1 (dependencies_of_composed_fields "X" ["pose"; "n"]
                     ["geometry/Pose"; "int32"] _ _ _ eq_refl))
    as (fs & H1 & _ & H2 & _).
  exists fs. split; [exact H1 | exact H2].
Defined.

(** C3 as stated fails: two fields of one type give the dependency twice,
    so the dependencies returned are not deduplicated. *)
Lemma dependencies_keep_duplicates :
  (exists text,
     translate "X" ["a"; "b"] ["p/T"; "p/T"] =
     (["a"; "b"], Ok (text, ["p/T"; "p/T"]))) /\
  ~ List.NoDup ["p/T"; "p/T"].
Proof.
  split; [eexists; reflexivity|].
  intros H. inversion H as [|x l Hx _]; subst. apply Hx. now left.
Qed.

Lemma imports_In l ts fs :
  In (l, ts) (Layout.imports fs) ->
  In l (map Layout.lib fs) /\
  ts = Layout.first_seen
         (map Layout.asn1
            (List.filter (fun f => String.eqb l (Layout.lib f)) fs)).
Proof.
  unfold Layout.imports. intros H. apply in_map_iff in H as (k & E & Hk).
  inversion E; subst. split; [now apply first_seen_In | reflexivity].
Qed.

(** C6, as the script does it, for a record whose translation returns a
    text: the text is the module header, the import clauses, the auxiliary
    definitions of the fixed-length fields in the order of the fields
    followed by those of the variable-length fields in the order of the
    fields, the record body and [END].  The import map of the loop is
    [Layout.imports]: one clause for each library, the libraries in the
    order of their first use, the types of a library each once, in the
    order of their first use and joined by commas. *)
Theorem module_text_structure (msg_name : string)
    (slots slot_types slots' : list string) (text : string)
    (deps : list string) :
  translate msg_name slots slot_types = (slots', Ok (text, deps)) ->
  exists fs,
    Layout.classify_all slots slot_types = Ok fs /\
    text =
      (msg_name ++ "-Types DEFINITIONS ::=" ++ nl ++ "BEGIN" ++ nl)
      ++ ("IMPORTS "
          ++ Layout.concat
               (map (fun e => Layout.join ", " (snd e) ++ " FROM " ++ fst e
                              ++ " ")
                  (Layout.imports fs))
          ++ ";" ++ nl)
      ++ (Layout.concat
            (map Layout.sequence_definition
               (List.filter (Layout.has_kind fixed_length) fs))
          ++ Layout.concat
               (map Layout.sequence_definition
                  (List.filter (Layout.has_kind variable_length) fs)))
      ++ Layout.body msg_name fs
      ++ "END" /\
    (exists a,
       scan_slot_types slot_types scan0 = Ok a /\
       import_libraries a = Layout.imports fs) /\
    Dict.keys (Layout.imports fs) = Layout.first_seen (map Layout.lib fs) /\
    List.NoDup (Dict.keys (Layout.imports fs)) /\
    (forall l ts, In (l, ts) (Layout.imports fs) ->
       List.NoDup ts /\
       ts = Layout.first_seen
              (map Layout.asn1
                 (List.filter (fun f => String.eqb l (Layout.lib f)) fs))) /\
    (forall f, In f fs ->
       exists ts, In (Layout.lib f, ts) (Layout.imports fs) /\
                  In (Layout.asn1 f) ts).
Proof.
  intros Ht.
  destruct (translate_returns_layout _ _ _ _ _ _ Ht)
    as (fs & H & _ & -> & _).
  exists fs. split; [exact H|].
  assert (Hkeys : Dict.keys (Layout.imports fs)
                  = Layout.first_seen (map Layout.lib fs)).
  { unfold Dict.keys, Layout.imports. rewrite map_map. simpl.
    apply map_id. }
  split; [|split; [|split; [|split; [|split]]]].
  - reflexivity.
  - eexists. split; [apply (scan_slot_types_layout _ _ _ scan0 H)|].
    simpl. apply collect_imports.
  - exact Hkeys.
  - rewrite Hkeys. apply first_seen_NoDup.
  - intros l ts Hin. apply imports_In in Hin as [_ ->].
    split; [apply first_seen_NoDup | reflexivity].
  - intros f Hf. eexists. split.
    + unfold Layout.imports. apply in_map_iff. exists (Layout.lib f).
      split; [reflexivity|]. apply first_seen_In. now apply in_map.
    + apply first_seen_In. apply in_map, filter_In.
      split; [assumption | apply String.eqb_refl].
Qed.

Lemma module_text_structure_witness :
  translate "X" ["a"; "b"; "c"] ["int32[]"; "int32[4]"; "float32"] =
    (["a"; "b"; "c"],
     Ok ("X-Types DEFINITIONS ::=" ++ nl ++ "BEGIN" ++ nl
         ++ "IMPORTS T-Int32 FROM TASTE-BasicTypes "
         ++ "T-Float FROM TASTE-ExtendedTypes ;" ++ nl
         ++ "Lb::= SEQUENCE (SIZE(0..4)) OF T-Int32" ++ nl
         ++ "Va::= SEQUENCE (SIZE(0..256)) OF T-Int32" ++ nl
         ++ "X::=" ++ nl ++ "SEQUENCE" ++ nl ++ "{" ++ nl
         ++ tab ++ "a" ++ tab ++ "Va," ++ nl
         ++ tab ++ "b" ++ tab ++ "Lb," ++ nl
         ++ tab ++ "c" ++ tab ++ "T-Float" ++ nl ++ "}" ++ nl
         ++ "END", [])) /\
  exists fs,
    Layout.classify_all ["a"; "b"; "c"] ["int32[]"; "int32[4]"; "float32"]
    = Ok fs /\
    Dict.keys (Layout.imports fs) = Layout.first_seen (map Layout.lib fs).
Proof.
  split; [reflexivity|].
  destruct (module_text_structure "X" ["a"; "b"; "c"]
              ["int32[]"; "int32[4]"; "float32"] _ _ _ eq_refl)
    as (fs & H1 & _ & _ & H2 & _).
  exists fs. split; [exact H1 | exact H2].
Defined.

(** C6 as stated fails: with a variable-length field before a fixed-length
    one, the auxiliary definition of the second field is written before
    that of the first. *)
Lemma sequences_not_in_field_order :
  let fs := [Layout.Field "a" "int32" variable_length 1 "T-Int32"
               "TASTE-BasicTypes" true;
             Layout.Field "b" "int32" fixed_length 4 "T-Int32"
               "TASTE-BasicTypes" true] in
  Layout.classify_all ["a"; "b"] ["int32[]"; "int32[4]"] = Ok fs /\
  translate "X" ["a"; "b"] ["int32[]"; "int32[4]"] =
    (["a"; "b"],
     Ok (Layout.header "X" ++ Layout.imports_text (Layout.imports fs)
         ++ ("Lb::= SEQUENCE (SIZE(0..4)) OF T-Int32" ++ nl
             ++ "Va::= SEQUENCE (SIZE(0..256)) OF T-Int32" ++ nl)
         ++ Layout.body "X" fs ++ "END", [])) /\
  Layout.sequences_in_field_order fs =
    "Va::= SEQUENCE (SIZE(0..256)) OF T-Int32" ++ nl
    ++ "Lb::= SEQUENCE (SIZE(0..4)) OF T-Int32" ++ nl /\
  translate "X" ["a"; "b"] ["int32[]"; "int32[4]"] <>
    (["a"; "b"],
     Ok (Layout.header "X" ++ Layout.imports_text (Layout.imports fs)
         ++ Layout.sequences_in_field_order fs
         ++ Layout.body "X" fs ++ "END", [])).
Proof.
  cbv zeta. repeat split; try reflexivity.
  vm_compute. discriminate.
Qed.

Lemma length_lower s : String.length (Py.lower s) = String.length s.
Proof. induction s as [|c s IH]; simpl; [reflexivity | now rewrite IH]. Qed.

Lemma length_sapp a b :
  String.length (a ++ b) = (String.length a + String.length b)%nat.
Proof. induction a as [|c a IH]; simpl; [reflexivity | now rewrite IH]. Qed.

Lemma renamed_type ty : Layout.renamed "type" ty = "type" ++ "-" ++ ty.
Proof.
  unfold Layout.renamed. cbn [String.eqb Ascii.eqb Bool.eqb].
  destruct (String.eqb_spec (Py.lower ("type" ++ "-" ++ ty)) (Py.lower ty))
    as [E|]; [|reflexivity].
  apply (f_equal String.length) in E. rewrite !length_lower in E.
  rewrite !length_sapp in E. simpl in E. lia.
Qed.

Lemma renamed_other slot ty :
  slot <> "type" ->
  Layout.renamed slot ty =
  if String.eqb (Py.lower slot) (Py.lower ty) then slot ++ "-field" else slot.
Proof.
  intros H. unfold Layout.renamed.
  apply String.eqb_neq in H. now rewrite H.
Qed.

Lemma length_hyphenate s : String.length (hyphenate s) = String.length s.
Proof.
  unfold hyphenate.
  induction s as [|c s IH]; simpl; [reflexivity | now rewrite IH].
Qed.

Lemma lower_differs a b :
  String.length a <> String.length b ->
  String.eqb (Py.lower a) (Py.lower b) = false.
Proof.
  intros H. apply String.eqb_neq. intros E.
  apply (f_equal String.length) in E. rewrite !length_lower in E.
  contradiction.
Qed.

Lemma renamed_array prefix slot :
  slot <> "type" ->
  Layout.renamed slot (String prefix (hyphenate slot)) = slot.
Proof.
  intros H. rewrite renamed_other by assumption.
  rewrite lower_differs; [reflexivity|].
  simpl. rewrite length_hyphenate. lia.
Qed.

(** C7, as the script does it, for a record whose translation returns a
    text: in the body a field is written as a tab, its emitted name, a tab
    and its type in the body, which is the notation type for a scalar field
    and the synthesized [L<name>] or [V<name>] for an array field.  A
    scalar field named [type] gets the suffix [-<notation type>] and
    nothing more; a scalar field with another name that is equal to its
    notation type up to case gets the suffix [-field]; an array field
    named [type] gets the suffix [-Ltype] or [-Vtype]; any other field
    keeps its name; in each case every underscore of the emitted name is
    written as a hyphen.  The field [type] of type [int32] is written
    [type-T-Int32]. *)
Theorem body_field_names (msg_name : string)
    (slots slot_types slots' : list string) (text : string)
    (deps : list string) :
  translate msg_name slots slot_types = (slots', Ok (text, deps)) ->
  (exists fs,
     Layout.classify_all slots slot_types = Ok fs /\
     text =
       Layout.header msg_name ++ Layout.imports_text (Layout.imports fs)
       ++ Layout.sequences fs
       ++ (msg_name ++ "::=" ++ nl ++ "SEQUENCE" ++ nl ++ "{" ++ nl
           ++ Layout.join ("," ++ nl)
                (map (fun f => tab ++ Layout.emitted_name f ++ tab
                               ++ Layout.effective_type f) fs)
           ++ nl ++ "}" ++ nl)
       ++ "END" /\
     forall f, In f fs ->
       match Layout.kind f with
       | simple =>
           Layout.effective_type f = Layout.asn1 f /\
           (Layout.name f = "type" ->
            Layout.emitted_name f
            = hyphenate ("type" ++ "-" ++ Layout.asn1 f)) /\
           (Layout.name f <> "type" ->
            Py.lower (Layout.name f) = Py.lower (Layout.asn1 f) ->
            Layout.emitted_name f = hyphenate (Layout.name f ++ "-field")) /\
           (Layout.name f <> "type" ->
            Py.lower (Layout.name f) <> Py.lower (Layout.asn1 f) ->
            Layout.emitted_name f = hyphenate (Layout.name f))
       | fixed_length =>
           Layout.effective_type f = "L" ++ hyphenate (Layout.name f) /\
           (Layout.name f = "type" ->
            Layout.emitted_name f = "type-Ltype") /\
           (Layout.name f <> "type" ->
            Layout.emitted_name f = hyphenate (Layout.name f))
       | variable_length =>
           Layout.effective_type f = "V" ++ hyphenate (Layout.name f) /\
           (Layout.name f = "type" ->
            Layout.emitted_name f = "type-Vtype") /\
           (Layout.name f <> "type" ->
            Layout.emitted_name f = hyphenate (Layout.name f))
       end) /\
  (forall s, chars (hyphenate s) = map hyphen_for_underscore (chars s)) /\
  translate "X" ["type"] ["int32"] =
    (["type-T-Int32"],
     Ok ("X-Types DEFINITIONS ::=" ++ nl ++ "BEGIN" ++ nl
         ++ "IMPORTS T-Int32 FROM TASTE-BasicTypes ;" ++ nl
         ++ "X::=" ++ nl ++ "SEQUENCE" ++ nl ++ "{" ++ nl
         ++ tab ++ "type-T-Int32" ++ tab ++ "T-Int32" ++ nl ++ "}" ++ nl
         ++ "END", [])).
Proof.
  intros Ht. split; [|split; [apply hyphenate_chars | reflexivity]].
  destruct (translate_returns_layout _ _ _ _ _ _ Ht)
    as (fs & H & _ & -> & _).
  exists fs. split; [exact H|]. split; [reflexivity|].
  intros f _. unfold Layout.emitted_name, Layout.effective_type.
  destruct (Layout.kind f).
  - split; [reflexivity|]. repeat split.
    + intros ->. now rewrite renamed_type.
    + intros Hn He. rewrite renamed_other by assumption.
      apply String.eqb_eq in He. now rewrite He.
    + intros Hn He. rewrite renamed_other by assumption.
      apply String.eqb_neq in He. now rewrite He.
  - split; [reflexivity|]. split.
    + intros ->. now rewrite renamed_type.
    + intros Hn. now rewrite (renamed_array "V").
  - split; [reflexivity|]. split.
    + intros ->. now rewrite renamed_type.
    + intros Hn. now rewrite (renamed_array "L").
Qed.

Lemma body_field_names_witness :
  translate "X" ["type"; "frame_id"; "Header"; "ranges"]
    ["int32"; "string"; "std_msgs/Header"; "float64[]"] =
    (["type-T-Int32"; "frame_id"; "Header-field"; "ranges"],
     Ok ("X-Types DEFINITIONS ::=" ++ nl ++ "BEGIN" ++ nl
         ++ "IMPORTS T-Int32 FROM TASTE-BasicTypes "
         ++ "T-String, T-Double FROM TASTE-ExtendedTypes "
         ++ "Header FROM Header-Types ;" ++ nl
         ++ "Vranges::= SEQUENCE (SIZE(0..256)) OF T-Double" ++ nl
         ++ "X::=" ++ nl ++ "SEQUENCE" ++ nl ++ "{" ++ nl
         ++ tab ++ "type-T-Int32" ++ tab ++ "T-Int32," ++ nl
         ++ tab ++ "frame-id" ++ tab ++ "T-String," ++ nl
         ++ tab ++ "Header-field" ++ tab ++ "Header," ++ nl
         ++ tab ++ "ranges" ++ tab ++ "Vranges" ++ nl ++ "}" ++ nl
         ++ "END", ["std_msgs/Header"])) /\
  exists fs,
    Layout.classify_all ["type"; "frame_id"; "Header"; "ranges"]
      ["int32"; "string"; "std_msgs/Header"; "float64[]"] = Ok fs /\
    forall f, In f fs ->
      Layout.kind f = simple -> Layout.name f = "type" ->
      Layout.emitted_name f = hyphenate ("type" ++ "-" ++ Layout.asn1 f).
Proof.
  split; [reflexivity|].
  destruct (proj1 (body_field_names "X"
                     ["type"; "frame_id"; "Header"; "ranges"]
                     ["int32"; "string"; "std_msgs/Header"; "float64[]"]
                     _ _ _ eq_refl))
    as (fs & H1 & _ & H2).
  exists fs. split; [exact H1|].
  intros f Hf Hk. specialize (H2 f Hf). rewrite Hk in H2.
  exact (proj1 (proj2 H2)).
Defined.

(** C7 as stated fails.  The field [type] of type [p/Type] has a name
    equal to its notation type [Type] up to case, and is written
    [type-Type], without the suffix [-field].  The array field [type] of
    type [int32[]] is written [type-Vtype], not [type-T-Int32].  The array
    field [header] of type [std_msgs/Header[]] has a name equal to its
    notation type [Header] up to case, and is written [header], without
    the suffix [-field].  The field [type] of type [p/My_T] is written
    [type-My-T], the underscore of the notation type [My_T] being a hyphen
    in the suffix. *)
Lemma emitted_names_not_as_claimed :
  (find_ASN1_type "p/Type" = Ok ("Type", "Type-Types", false) /\
   Py.lower "type" = Py.lower "Type" /\
   translate "X" ["type"] ["p/Type"] =
     (["type-Type"],
      Ok ("X-Types DEFINITIONS ::=" ++ nl ++ "BEGIN" ++ nl
          ++ "IMPORTS Type FROM Type-Types ;" ++ nl
          ++ "X::=" ++ nl ++ "SEQUENCE" ++ nl ++ "{" ++ nl
          ++ tab ++ "type-Type" ++ tab ++ "Type" ++ nl ++ "}" ++ nl
          ++ "END", ["p/Type"]))) /\
  (find_ASN1_type "int32" = Ok ("T-Int32", "TASTE-BasicTypes", true) /\
   translate "X" ["type"] ["int32[]"] =
     (["type-Vtype"],
      Ok ("X-Types DEFINITIONS ::=" ++ nl ++ "BEGIN" ++ nl
          ++ "IMPORTS T-Int32 FROM TASTE-BasicTypes ;" ++ nl
          ++ "Vtype::= SEQUENCE (SIZE(0..256)) OF T-Int32" ++ nl
          ++ "X::=" ++ nl ++ "SEQUENCE" ++ nl ++ "{" ++ nl
          ++ tab ++ "type-Vtype" ++ tab ++ "Vtype" ++ nl ++ "}" ++ nl
          ++ "END", []))) /\
  (find_ASN1_type "std_msgs/Header" = Ok ("Header", "Header-Types", false) /\
   Py.lower "header" = Py.lower "Header" /\
   translate "X" ["header"] ["std_msgs/Header[]"] =
     (["header"],
      Ok ("X-Types DEFINITIONS ::=" ++ nl ++ "BEGIN" ++ nl
          ++ "IMPORTS Header FROM Header-Types ;" ++ nl
          ++ "Vheader::= SEQUENCE (SIZE(0..256)) OF Header" ++ nl
          ++ "X::=" ++ nl ++ "SEQUENCE" ++ nl ++ "{" ++ nl
          ++ tab ++ "header" ++ tab ++ "Vheader" ++ nl ++ "}" ++ nl
          ++ "END", ["std_msgs/Header"]))) /\
  (find_ASN1_type "p/My_T" = Ok ("My_T", "My_T-Types", false) /\
   translate "X" ["type"] ["p/My_T"] =
     (["type-My_T"],
      Ok ("X-Types DEFINITIONS ::=" ++ nl ++ "BEGIN" ++ nl
          ++ "IMPORTS My_T FROM My_T-Types ;" ++ nl
          ++ "X::=" ++ nl ++ "SEQUENCE" ++ nl ++ "{" ++ nl
          ++ tab ++ "type-My-T" ++ tab ++ "My_T" ++ nl ++ "}" ++ nl
          ++ "END", ["p/My_T"]))).
Proof. repeat split; reflexivity. Qed.

(** C9: [translate] writes the renamed names into [slots], the list
    [__slots__] of the message class: after the translation of the message
    with the fields [type] and [n], the class has the field names
    [type-T-Int32] and [n].  The field types are left as they were. *)
Theorem translate_writes_slots :
  fst (translate "M" ["type"; "n"] ["int32"; "uint32"])
    = ["type-T-Int32"; "n"] /\
  get_message_dict
    (default [] (get_python_msg_module typed_ros "p")) "M"
    = Some (MsgDict "p/M" ["type"; "n"] ["int32"; "uint32"] "") /\
  get_message_dict
    (default []
       (get_python_msg_module (fst (process_msg typed_ros "p/M")) "p")) "M"
    = Some (MsgDict "p/M" ["type-T-Int32"; "n"] ["int32"; "uint32"] "").
Proof. repeat split; reflexivity. Qed.

(** * The worklist driver *)

Lemma mem_false_In (x : string) (l : list string) :
  Py.mem x l = false <-> ~ In x l.
Proof. rewrite <- mem_In. destruct (Py.mem x l); split; congruence. Qed.

(** The names [enqueue] appends are dependencies that are neither pending
    nor generated, each once. *)
Lemma enqueue_spec deps : forall msgs gen,
  exists new,
    enqueue deps msgs gen = (msgs ++ new)%list /\
    List.NoDup new /\
    (forall n, In n new <-> In n deps /\ ~ In n msgs /\ ~ In n gen).
Proof.
  induction deps as [|dep deps IH]; intros msgs gen; simpl.
  - exists []. rewrite app_nil_r. split; [reflexivity|].
    split; [constructor|]. intros n. simpl. tauto.
  - destruct (Py.mem dep msgs) eqn:Em; simpl.
    + destruct (IH msgs gen) as (new & E & Hnd & Hin).
      exists new. split; [assumption|]. split; [assumption|].
      intros n. rewrite Hin. apply mem_In in Em.
      split; [tauto|]. intros [[<-|H] [H1 H2]]; tauto.
    + destruct (Py.mem dep gen) eqn:Eg; simpl.
      * destruct (IH msgs gen) as (new & E & Hnd & Hin).
        exists new. split; [assumption|]. split; [assumption|].
        intros n. rewrite Hin. apply mem_In in Eg.
        split; [tauto|]. intros [[<-|H] [H1 H2]]; tauto.
      * destruct (IH (msgs ++ [dep])%list gen) as (new & E & Hnd & Hin).
        apply mem_false_In in Em, Eg.
        exists (dep :: new). rewrite E, <- app_assoc. split; [reflexivity|].
        split.
        -- constructor; [|assumption]. rewrite Hin, in_app_iff. simpl. tauto.
        -- intros n. simpl. rewrite Hin, in_app_iff. simpl.
           destruct (string_dec dep n) as [<-|Hne]; tauto.
Qed.

Lemma split_not_nil sep s : Py.split sep s <> [].
Proof.
  destruct s as [|a s]; simpl; [discriminate|].
  destruct (Ascii.eqb a sep); [discriminate|].
  destruct (Py.split sep s); discriminate.
Qed.

Lemma split_two sep s : forall i,
  Py.find_from sep s i <> -1 ->
  exists a b rest, Py.split sep s = a :: b :: rest.
Proof.
  induction s as [|c s IH]; intros i H; simpl in *; [congruence|].
  destruct (Ascii.eqb c sep).
  - destruct (Py.split sep s) as [|b rest] eqn:E.
    + now apply split_not_nil in E.
    + eauto.
  - destruct (IH _ H) as (a & b & rest & ->). eauto.
Qed.

Lemma save_msg_ok fs asn1_str msg out_dir :
  save_msg fs asn1_str msg out_dir =
  Ok (fs ++ [(artifact out_dir msg, asn1_str)])%list.
Proof.
  unfold save_msg, artifact, unqualified.
  destruct (Py.contains "/" msg) eqn:E; [|reflexivity].
  unfold Py.contains, Py.find in E. apply negb_true_iff, Z.eqb_neq in E.
  destruct (split_two _ _ _ E) as (a & b & rest & ->). reflexivity.
Qed.

Section Driver.
Context {W : Type}.
Variable process : W -> string -> W * res (option (string * list string)).
Variable out_dir : string.

(** An iteration that goes on: a name is popped, translated and saved, and
    its new dependencies are appended. *)
Lemma main_step_continue st st' :
  main_step process out_dir st = (st', None) ->
  exists msg rest w text deps,
    messages st = msg :: rest /\
    process (rospack_of st) msg = (w, Ok (Some (text, deps))) /\
    st' = State w (enqueue deps rest (generated_msgs st ++ [msg])%list)
            (generated_msgs st ++ [msg])%list
            (written st ++ [(artifact out_dir msg, text)])%list.
Proof.
  unfold main_step.
  destruct (messages st) as [|msg rest] eqn:Em; [discriminate|].
  destruct (process (rospack_of st) msg) as [w [[[text deps]|]|e]] eqn:Ep;
    try discriminate.
  rewrite save_msg_ok. intros H. inversion H; subst.
  exists msg, rest, w, text, deps. auto.
Qed.

(** The iteration that ends the loop. *)
Lemma main_step_stop st st' o :
  main_step process out_dir st = (st', Some o) ->
  (messages st = [] /\ st' = st /\ o = Returned) \/
  (exists msg rest w,
     messages st = msg :: rest /\
     st' = State w rest (generated_msgs st) (written st) /\
     ((process (rospack_of st) msg = (w, Ok None)
       /\ o = Exited (value ARGS_ERROR)) \/
      (exists e, process (rospack_of st) msg = (w, Raise e)
                 /\ o = Raised e))).
Proof.
  unfold main_step. destruct (messages st) as [|msg rest] eqn:Em.
  - intros H. inversion H; subst. left. auto.
  - destruct (process (rospack_of st) msg) as [w [[[text deps]|]|e]] eqn:Ep.
    + rewrite save_msg_ok. discriminate.
    + intros H. inversion H; subst. right. exists msg, rest, w. auto.
    + intros H. inversion H; subst. right. exists msg, rest, w.
      split; [reflexivity|]. split; [reflexivity|]. right. eauto.
Qed.

(** A run of the loop is a sequence of iterations that go on, then the one
    that ends it. *)
Lemma main_loop_steps fuel : forall st st' o,
  main_loop process out_dir fuel st = Some (st', o) ->
  exists st1,
    steps process out_dir st st1 /\
    main_step process out_dir st1 = (st', Some o).
Proof.
  induction fuel as [|fuel IH]; intros st st' o H; simpl in H; [discriminate|].
  destruct (main_step process out_dir st) as [st2 [o2|]] eqn:E.
  - inversion H; subst. exists st. split; [constructor | assumption].
  - destruct (IH _ _ _ H) as (st1 & Hs & Hl). exists st1. split; [|assumption].
    clear - E Hs. induction Hs.
    + eapply steps_next; [constructor | eassumption].
    + eapply steps_next; eassumption.
Qed.

End Driver.

(** ** Counting the names not seen yet *)

Lemma unseen_ext U s1 s2 :
  (forall x, In x s1 <-> In x s2) -> unseen U s1 = unseen U s2.
Proof.
  intros H. unfold unseen. apply filter_ext. intros u. f_equal.
  apply Bool.eq_iff_eq_true. rewrite !mem_In. apply H.
Qed.

Lemma unseen_mono U seen extra :
  (length (unseen U (seen ++ extra)) <= length (unseen U seen))%nat.
Proof.
  unfold unseen. induction U as [|u U IH]; simpl; [lia|].
  destruct (Py.mem u seen) eqn:E.
  - assert (E' : Py.mem u (seen ++ extra) = true).
    { apply mem_In, in_or_app. left. now apply mem_In. }
    rewrite E'. simpl. exact IH.
  - simpl. destruct (Py.mem u (seen ++ extra)); simpl; lia.
Qed.

Lemma unseen_one U seen x :
  In x U -> ~ In x seen ->
  (length (unseen U (seen ++ [x])) < length (unseen U seen))%nat.
Proof.
  unfold unseen. induction U as [|u U IH]; simpl; [tauto|].
  intros Hx Hs. destruct (string_dec u x) as [->|Hne].
  - assert (E : Py.mem x seen = false) by now apply mem_false_In.
    assert (E' : Py.mem x (seen ++ [x]) = true).
    { apply mem_In, in_or_app. right. now left. }
    rewrite E, E'. simpl.
    pose proof (unseen_mono U seen [x]) as H. unfold unseen in H. lia.
  - destruct Hx as [Hx|Hx]; [contradiction|].
    specialize (IH Hx Hs).
    assert (E : Py.mem u (seen ++ [x]) = Py.mem u seen).
    { apply Bool.eq_iff_eq_true. rewrite !mem_In, in_app_iff. simpl.
      split; [|tauto]. intros [H|[H|[]]]; [assumption|].
      symmetry in H. contradiction. }
    rewrite E. destruct (Py.mem u seen); simpl; lia.
Qed.

Lemma unseen_new U new : forall seen,
  List.NoDup new -> incl new U -> (forall n, In n new -> ~ In n seen) ->
  (length (unseen U (seen ++ new)) + length new <= length (unseen U seen))%nat.
Proof.
  induction new as [|x new IH]; intros seen Hnd Hin Hs.
  - rewrite app_nil_r. simpl. lia.
  - inversion Hnd as [|? ? Hx Hnd']; subst.
    rewrite (unseen_ext U (seen ++ x :: new) ((seen ++ [x]) ++ new)).
    2:{ intros y. rewrite <- app_assoc. reflexivity. }
    specialize (IH (seen ++ [x])%list Hnd').
    assert (H1 : incl new U) by (intros y Hy; apply Hin; now right).
    assert (H2 : forall n, In n new -> ~ In n (seen ++ [x])).
    { intros n Hn Hc. apply in_app_or in Hc as [Hc|[<-|[]]].
      - apply (Hs n); [now right | assumption].
      - contradiction. }
    specialize (IH H1 H2).
    assert (H3 : (length (unseen U (seen ++ [x]))
                  < length (unseen U seen))%nat).
    { apply unseen_one; [apply Hin; now left | apply Hs; now left]. }
    simpl. lia.
Qed.

(** ** Invariants and termination of the loop *)

Section Closure.
Context {W : Type}.
Variable process : W -> string -> W * res (option (string * list string)).
Variable out_dir : string.
Variable U : list string.
Variable good : W -> Prop.

Hypothesis good_step : forall w n, good w -> In n U ->
  good (fst (process w n)) /\
  forall text deps,
    snd (process w n) = Ok (Some (text, deps)) -> incl deps U.

Lemma measure_step st st' :
  good (rospack_of st) -> incl (messages st) U ->
  main_step process out_dir st = (st', None) ->
  good (rospack_of st') /\ incl (messages st') U /\
  (measure U st' < measure U st)%nat.
Proof.
  intros Hg Hi Hs.
  destruct (main_step_continue _ _ _ _ Hs)
    as (msg & rest & w & text & deps & Em & Ep & ->).
  assert (HmU : In msg U) by (apply Hi; rewrite Em; now left).
  destruct (good_step _ _ Hg HmU) as [Hg' Hd]. rewrite Ep in Hg', Hd.
  specialize (Hd text deps eq_refl). simpl in Hg'.
  destruct (enqueue_spec deps rest (generated_msgs st ++ [msg]))
    as (new & En & Hnd & Hin).
  assert (HnewU : incl new U).
  { intros n Hn. apply Hd. now apply Hin. }
  unfold measure. cbn [rospack_of messages generated_msgs]. rewrite En, Em.
  split; [assumption|]. split.
  - intros n Hn. apply in_app_or in Hn as [Hn|Hn].
    + apply Hi. rewrite Em. now right.
    + now apply HnewU.
  - assert (Hfresh : forall n, In n new ->
              ~ In n (generated_msgs st ++ msg :: rest)).
    { intros n Hn Hc. apply Hin in Hn as (_ & Hr & Hgn).
      apply in_app_or in Hc as [Hc|[Hc|Hc]].
      - apply Hgn, in_or_app. now left.
      - apply Hgn, in_or_app. right. now left.
      - contradiction. }
    pose proof (unseen_new U new (generated_msgs st ++ msg :: rest)
                  Hnd HnewU Hfresh) as H.
    assert (E1 : ((generated_msgs st ++ [msg]) ++ rest ++ new
                  = (generated_msgs st ++ msg :: rest) ++ new)%list).
    { rewrite <- !app_assoc. reflexivity. }
    rewrite E1, length_app. simpl. lia.
Qed.

Lemma steps_good st0 st :
  good (rospack_of st0) -> incl (messages st0) U ->
  steps process out_dir st0 st ->
  good (rospack_of st) /\ incl (messages st) U.
Proof.
  intros Hg Hi Hs. induction Hs as [|st1 st2 Hs IH Hstep]; [auto|].
  destruct IH as [Hg1 Hi1].
  destruct (measure_step _ _ Hg1 Hi1 Hstep) as (? & ? & _). auto.
Qed.

Lemma main_loop_terminates fuel : forall st,
  good (rospack_of st) -> incl (messages st) U ->
  (measure U st < fuel)%nat ->
  exists st' o, main_loop process out_dir fuel st = Some (st', o).
Proof.
  induction fuel as [|fuel IH]; intros st Hg Hi Hm; [lia|].
  simpl. destruct (main_step process out_dir st) as [st2 [o|]] eqn:E.
  - eauto.
  - destruct (measure_step _ _ Hg Hi E) as (Hg2 & Hi2 & Hlt).
    apply IH; [assumption | assumption | lia].
Qed.

(** When every name of [U] is translated, a run that ends returns. *)
Lemma all_translated_returns fuel st0 st' o :
  good (rospack_of st0) -> incl (messages st0) U ->
  (forall w n, good w -> In n U ->
     exists r, snd (process w n) = Ok (Some r)) ->
  main_loop process out_dir fuel st0 = Some (st', o) ->
  o = Returned.
Proof.
  intros Hg Hi Hok Hl.
  destruct (main_loop_steps _ _ _ _ _ _ Hl) as (st1 & Hs & Hstop).
  destruct (steps_good _ _ Hg Hi Hs) as [Hg1 Hi1].
  destruct (main_step_stop _ _ _ _ _ Hstop)
    as [(_ & _ & ->)|(msg & rest & w & Em & _ & [[Ep _]|(e & Ep & _)])];
    [reflexivity| |];
    exfalso;
    (assert (HmU : In msg U) by (apply Hi1; rewrite Em; now left));
    destruct (Hok _ _ Hg1 HmU) as [r Hr]; rewrite Ep in Hr; discriminate.
Qed.

Lemma measure_init (w : W) names :
  (measure U (init w names) <= length U + length names)%nat.
Proof.
  unfold measure, init, unseen. simpl.
  pose proof (List.filter_length_le
                (fun u => negb (Py.mem u names)) U). lia.
Qed.

End Closure.

Section Invariants.
Context {W : Type}.
Variable process : W -> string -> W * res (option (string * list string)).
Variable out_dir : string.

(** An iteration appends only names that are neither pending nor generated,
    the popped name included. *)
Lemma step_appends st st' :
  main_step process out_dir st = (st', None) ->
  exists msg rest new,
    messages st = msg :: rest /\
    generated_msgs st' = (generated_msgs st ++ [msg])%list /\
    messages st' = (rest ++ new)%list /\
    List.NoDup new /\
    forall n, In n new ->
              ~ In n (messages st) /\ ~ In n (generated_msgs st').
Proof.
  intros Hs.
  destruct (main_step_continue _ _ _ _ Hs)
    as (msg & rest & w & text & deps & Em & Ep & ->).
  destruct (enqueue_spec deps rest (generated_msgs st ++ [msg]))
    as (new & En & Hnd & Hin).
  exists msg, rest, new. cbn [messages generated_msgs].
  repeat split; try assumption.
  - intros Hc. apply Hin in H as (_ & Hr & Hg). rewrite Em in Hc.
    destruct Hc as [<-|Hc]; [|contradiction].
    apply Hg, in_or_app. right. now left.
  - now apply Hin in H.
Qed.

Lemma step_NoDup st st' :
  List.NoDup (generated_msgs st ++ messages st) ->
  main_step process out_dir st = (st', None) ->
  List.NoDup (generated_msgs st' ++ messages st').
Proof.
  intros Hnd Hs.
  destruct (step_appends _ _ Hs) as (msg & rest & new & Em & -> & -> & Hn & Hf).
  rewrite Em in Hnd, Hf.
  replace ((generated_msgs st ++ [msg]) ++ rest ++ new)%list
    with ((generated_msgs st ++ msg :: rest) ++ new)%list
    by (rewrite <- !app_assoc; reflexivity).
  apply List.NoDup_app; [assumption | assumption |].
  intros n Hin Hnew. destruct (Hf n Hnew) as [H1 H2].
  apply in_app_or in Hin as [Hin|Hin]; [|contradiction].
  apply H2, in_or_app. now left.
Qed.

Lemma steps_NoDup st0 st :
  List.NoDup (generated_msgs st0 ++ messages st0) ->
  steps process out_dir st0 st ->
  List.NoDup (generated_msgs st ++ messages st).
Proof.
  intros H Hs. induction Hs as [|st1 st2 Hs IH Hstep]; [assumption|].
  eapply step_NoDup; eassumption.
Qed.

(** Every generated name has its artifact, written once, in order. *)
Lemma steps_written st0 st :
  map fst (written st0) = map (artifact out_dir) (generated_msgs st0) ->
  steps process out_dir st0 st ->
  map fst (written st) = map (artifact out_dir) (generated_msgs st).
Proof.
  intros H Hs. induction Hs as [|st1 st2 Hs IH Hstep]; [assumption|].
  destruct (main_step_continue _ _ _ _ Hstep)
    as (msg & rest & w & text & deps & Em & Ep & ->).
  cbn [written generated_msgs]. rewrite !map_app, IH. reflexivity.
Qed.

End Invariants.

Section Reach.
Context {W : Type}.
Variable process : W -> string -> W * res (option (string * list string)).
Variable out_dir : string.
Variable U : list string.
Variable good : W -> Prop.
Variable deps_of : string -> list string.
Variable names : list string.

Hypothesis process_deps : forall w n, good w -> In n U ->
  good (fst (process w n)) /\
  forall text deps,
    snd (process w n) = Ok (Some (text, deps)) ->
    deps = deps_of n /\ incl deps U.

Lemma process_deps_good : forall w n, good w -> In n U ->
  good (fst (process w n)) /\
  forall text deps,
    snd (process w n) = Ok (Some (text, deps)) -> incl deps U.
Proof.
  intros w n Hg Hn. destruct (process_deps w n Hg Hn) as [H1 H2].
  split; [assumption|]. intros text deps H. now apply (H2 text deps).
Qed.

Lemma step_closure st st' :
  good (rospack_of st) -> incl (messages st) U ->
  closure_inv deps_of names st ->
  main_step process out_dir st = (st', None) ->
  closure_inv deps_of names st'.
Proof.
  intros Hg Hi (I1 & I2 & I3) Hs.
  destruct (main_step_continue _ _ _ _ Hs)
    as (msg & rest & w & text & deps & Em & Ep & ->).
  assert (HmU : In msg U) by (apply Hi; rewrite Em; now left).
  destruct (process_deps _ _ Hg HmU) as [_ Hd]. rewrite Ep in Hd.
  destruct (Hd text deps eq_refl) as [-> _].
  destruct (enqueue_spec (deps_of msg) rest (generated_msgs st ++ [msg]))
    as (new & En & Hnd & Hin).
  unfold closure_inv. cbn [messages generated_msgs]. rewrite En.
  rewrite Em in I1, I2, I3.
  assert (Hold : forall n, In n (generated_msgs st ++ msg :: rest) ->
            In n ((generated_msgs st ++ [msg]) ++ rest ++ new)).
  { intros n Hn. rewrite <- app_assoc. simpl.
    apply in_app_or in Hn as [Hn|Hn]; apply in_or_app; [now left|].
    right. destruct Hn as [Hn|Hn]; [now left|]. right.
    apply in_or_app. now left. }
  split; [|split].
  - intros n Hn. rewrite <- app_assoc in Hn. simpl in Hn.
    apply in_app_or in Hn as [Hn|[Hn|Hn]].
    + apply I1, in_or_app. now left.
    + apply I1, in_or_app. right. now left.
    + apply in_app_or in Hn as [Hn|Hn].
      * apply I1, in_or_app. right. now right.
      * apply Hin in Hn as (Hn & _). apply (reach_dep _ _ msg); [|assumption].
        apply I1, in_or_app. right. now left.
  - intros n Hn. now apply Hold, I2.
  - intros g d Hg' Hd'. apply in_app_or in Hg' as [Hg'|[<-|[]]].
    + now apply Hold, (I3 g d).
    + destruct (in_dec string_dec d rest) as [Hr|Hr].
      { apply in_or_app. right. apply in_or_app. now left. }
      destruct (in_dec string_dec d (generated_msgs st ++ [msg])) as [Hgn|Hgn].
      { apply in_or_app. now left. }
      apply in_or_app. right. apply in_or_app. right. apply Hin. auto.
Qed.

Lemma steps_closure st :
  good (rospack_of st) -> incl (messages st) U ->
  closure_inv deps_of names st ->
  forall st', steps process out_dir st st' -> closure_inv deps_of names st'.
Proof.
  intros Hg Hi Hc st' Hs. induction Hs as [|st1 st2 Hs IH Hstep]; [assumption|].
  destruct (steps_good process out_dir U good process_deps_good _ _ Hg Hi Hs)
    as [Hg1 Hi1].
  eapply step_closure; eassumption.
Qed.

Lemma closure_init (w : W) : closure_inv deps_of names (init w names).
Proof.
  unfold closure_inv, init. simpl. split; [|split]; try tauto.
  intros n Hn. now apply reach_init.
Qed.

(** When nothing is pending, the generated names are the reached ones. *)
Lemma closure_final (st : state W) :
  closure_inv deps_of names st -> messages st = [] ->
  forall n, In n (generated_msgs st) <-> reach deps_of names n.
Proof.
  intros (I1 & I2 & I3) Em n. rewrite Em, app_nil_r in *. split.
  - apply I1.
  - intros Hr. induction Hr as [n Hn|m n Hr IH Hd].
    + now apply I2.
    + now apply (I3 m n).
Qed.

End Reach.

(** C2, as the script does it: names are compared as strings.  From a list
    of requested names without duplicates, every state the loop goes through
    has no name twice among the generated and the pending ones, one write
    for each generated name, and an iteration appends only names that are
    neither pending nor generated.  When the names and their dependencies
    lie in a finite set [U], the loop ends within [length U + length names]
    iterations; when it returns, nothing is pending and the generated names
    are the names reached from the requested ones, each once.  For the two
    messages [p/A] and [p/B] that refer to each other, the loop from
    [["p/A"]] returns with [p/A] and [p/B] generated, one write for each and
    nothing pending. *)
Theorem worklist_translates_each_name_once {W : Type}
    (process : W -> string -> W * res (option (string * list string)))
    (out_dir : string) (U : list string) (good : W -> Prop)
    (deps_of : string -> list string) (w0 : W) (names : list string) :
  List.NoDup names -> incl names U -> good w0 ->
  (forall w n, good w -> In n U ->
     good (fst (process w n)) /\
     forall text deps,
       snd (process w n) = Ok (Some (text, deps)) ->
       deps = deps_of n /\ incl deps U) ->
  (forall st, steps process out_dir (init w0 names) st ->
     List.NoDup (generated_msgs st ++ messages st) /\
     map fst (written st) = map (artifact out_dir) (generated_msgs st) /\
     forall st', main_step process out_dir st = (st', None) ->
       exists msg rest new,
         messages st = msg :: rest /\
         generated_msgs st' = (generated_msgs st ++ [msg])%list /\
         messages st' = (rest ++ new)%list /\
         List.NoDup new /\
         forall n, In n new ->
                   ~ In n (messages st) /\ ~ In n (generated_msgs st')) /\
  (exists st' o,
     main_loop process out_dir (S (length U + length names)) (init w0 names)
       = Some (st', o) /\
     ((forall w n, good w -> In n U ->
         exists r, snd (process w n) = Ok (Some r)) ->
      o = Returned) /\
     (o = Returned ->
      messages st' = [] /\
      List.NoDup (generated_msgs st') /\
      map fst (written st') = map (artifact out_dir) (generated_msgs st') /\
      forall n, In n (generated_msgs st') <-> reach deps_of names n)) /\
  summary (main_loop process_msg "/tmp/" 3 (init cycle_ros ["p/A"])) =
    Some ([], ["p/A"; "p/B"],
          [("/tmp/A.asn", module_A); ("/tmp/B.asn", module_B)], Returned).
Proof.
  intros Hnd Hincl Hg0 Hp.
  pose proof (process_deps_good process U good deps_of Hp) as Hgs.
  assert (Hnd0 : List.NoDup (generated_msgs (init w0 names)
                             ++ messages (init w0 names))) by exact Hnd.
  split; [|split].
  - intros st Hs. split; [|split].
    + now apply (steps_NoDup process out_dir _ _ Hnd0).
    + now apply (steps_written process out_dir (init w0 names)).
    + intros st'. apply step_appends.
  - destruct (main_loop_terminates process out_dir U good Hgs
                (S (length U + length names)) (init w0 names) Hg0 Hincl)
      as (st' & o & Hl).
    { pose proof (measure_init U w0 names). lia. }
    exists st', o. split; [assumption|]. split.
    { intros Hok.
      exact (all_translated_returns process out_dir U good Hgs _
               (init w0 names) st' o Hg0 Hincl Hok Hl). }
    intros ->.
    destruct (main_loop_steps _ _ _ _ _ _ Hl) as (st1 & Hs & Hstop).
    destruct (main_step_stop _ _ _ _ _ Hstop)
      as [(Em & -> & _)|(msg & rest & w & _ & _ & [[_ Ho]|(e & _ & Ho)])];
      try discriminate.
    split; [assumption|].
    pose proof (steps_NoDup process out_dir _ _ Hnd0 Hs) as Hn1.
    rewrite Em, app_nil_r in Hn1. split; [assumption|].
    split; [now apply (steps_written process out_dir (init w0 names))|].
    apply closure_final; [|assumption].
    apply (steps_closure process out_dir U good deps_of names Hp
             (init w0 names)); try assumption.
    apply closure_init.
  - reflexivity.
Qed.

Lemma worklist_translates_each_name_once_witness :
  List.NoDup ["p/A"] /\
  incl ["p/A"] ["p/A"; "p/B"] /\
  (forall w n, w = cycle_ros -> In n ["p/A"; "p/B"] ->
     fst (process_msg w n) = cycle_ros /\
     forall text deps,
       snd (process_msg w n) = Ok (Some (text, deps)) ->
       deps = cycle_deps n /\ incl deps ["p/A"; "p/B"]) /\
  exists st' o,
    main_loop process_msg "/tmp/" 4 (init cycle_ros ["p/A"]) = Some (st', o) /\
    ((forall w n, w = cycle_ros -> In n ["p/A"; "p/B"] ->
        exists r, snd (process_msg w n) = Ok (Some r)) ->
     o = Returned) /\
    (o = Returned ->
     messages st' = [] /\
     List.NoDup (generated_msgs st') /\
     map fst (written st') = map (artifact "/tmp/") (generated_msgs st') /\
     forall n, In n (generated_msgs st') <-> reach cycle_deps ["p/A"] n).
Proof.
  assert (H1 : List.NoDup ["p/A"]).
  { constructor; [intros [] | constructor]. }
  assert (H2 : incl ["p/A"] ["p/A"; "p/B"]).
  { intros x [<-|[]]. now left. }
  assert (H3 : forall w n, w = cycle_ros -> In n ["p/A"; "p/B"] ->
     fst (process_msg w n) = cycle_ros /\
     forall text deps,
       snd (process_msg w n) = Ok (Some (text, deps)) ->
       deps = cycle_deps n /\ incl deps ["p/A"; "p/B"]).
  { intros w n -> [<-|[<-|[]]].
    - split; [vm_compute; reflexivity|]. intros text deps H.
      vm_compute in H. inversion H; subst. split; [reflexivity|].
      intros x [<-|[]]. right. now left.
    - split; [vm_compute; reflexivity|]. intros text deps H.
      vm_compute in H. inversion H; subst. split; [reflexivity|].
      intros x [<-|[]]. now left. }
  split; [exact H1|]. split; [exact H2|]. split; [exact H3|].
  exact (proj1 (proj2
    (worklist_translates_each_name_once process_msg "/tmp/" ["p/A"; "p/B"]
       (fun w => w = cycle_ros) cycle_deps cycle_ros ["p/A"]
       H1 H2 eq_refl H3))).
Defined.

(** C2 as stated fails.  A name requested twice is translated twice; and
    from [["A"]], where [A] is [p/A], which depends on [p/B], which depends
    on [p/A], the message [A] is translated and written a second time under
    the name [p/A]. *)
Lemma names_translated_twice :
  summary (main_loop process_msg "/tmp/" 4
             (init cycle_ros ["p/A"; "p/A"])) =
    Some ([], ["p/A"; "p/A"; "p/B"],
          [("/tmp/A.asn", module_A); ("/tmp/A.asn", module_A);
           ("/tmp/B.asn", module_B)], Returned) /\
  ~ List.NoDup ["p/A"; "p/A"; "p/B"] /\
  summary (main_loop process_msg "/tmp/" 4 (init cycle_ros ["A"])) =
    Some ([], ["A"; "p/B"; "p/A"],
          [("/tmp/A.asn", module_A); ("/tmp/B.asn", module_B);
           ("/tmp/A.asn", module_A)], Returned).
Proof.
  split; [reflexivity|]. split; [|reflexivity].
  intros H. inversion H as [|x l Hx _]; subst. apply Hx. now left.
Qed.

(** C8: when [process_msg] returns no result for the popped name, the loop
    ends there with [sys.exit(ARGS_ERROR)]; when it raises, the exception
    ends the process there; either way the status is 1 and not 0, the
    generated names and the writes are as they were, and the pending names
    are not translated.  A run from requested names whose dependencies lie
    in a finite set [U] ends: it returns, with status 0, nothing pending
    and a write for each generated name, or it stops at the first popped
    name that has no result or raises, with status 1; when every name of
    [U] is translated, it returns.  In [cycle_ros], the request for the
    unknown [C] and then [p/A] exits with status 1 and [p/A] pending; the
    request for [p/A] returns.  In [bool_ros], where the translation of
    [std_msgs/Bool] raises [KeyError], the request for it and then
    [std_msgs/Flag] stops with [std_msgs/Flag] pending, and the request for
    [std_msgs/Flag] stops at its dependency [std_msgs/Bool], after the
    write for [std_msgs/Flag]; a package that is not found stops the run
    as well. *)
Theorem first_failure_halts {W : Type}
    (process : W -> string -> W * res (option (string * list string)))
    (out_dir : string) (U : list string) (good : W -> Prop)
    (w0 : W) (names : list string) :
  incl names U -> good w0 ->
  (forall w n, good w -> In n U ->
     good (fst (process w n)) /\
     forall text deps,
       snd (process w n) = Ok (Some (text, deps)) -> incl deps U) ->
  (forall st msg rest w' fuel,
     messages st = msg :: rest ->
     process (rospack_of st) msg = (w', Ok None) ->
     main_loop process out_dir (S fuel) st
     = Some (State w' rest (generated_msgs st) (written st),
             Exited (value ARGS_ERROR))) /\
  (forall st msg rest w' e fuel,
     messages st = msg :: rest ->
     process (rospack_of st) msg = (w', Raise e) ->
     main_loop process out_dir (S fuel) st
     = Some (State w' rest (generated_msgs st) (written st), Raised e)) /\
  value ARGS_ERROR = 1 /\ value OK = 0 /\
  (forall e, exit_status (Raised e) = 1) /\
  exit_status (Exited (value ARGS_ERROR)) = 1 /\
  exit_status Returned = 0 /\
  (exists st' o,
     main_loop process out_dir (S (length U + length names)) (init w0 names)
       = Some (st', o) /\
     (o = Returned ->
      exit_status o = 0 /\ messages st' = [] /\
      map fst (written st') = map (artifact out_dir) (generated_msgs st')) /\
     (o <> Returned ->
      exit_status o = 1 /\ exit_status o <> 0 /\
      exists st1 msg rest,
        steps process out_dir (init w0 names) st1 /\
        messages st1 = msg :: rest /\
        (snd (process (rospack_of st1) msg) = Ok None /\
         o = Exited (value ARGS_ERROR)
         \/ exists e, snd (process (rospack_of st1) msg) = Raise e /\
                      o = Raised e) /\
        messages st' = rest /\
        generated_msgs st' = generated_msgs st1 /\
        written st' = written st1) /\
     (forall code, o = Exited code -> code = value ARGS_ERROR) /\
     ((forall w n, good w -> In n U ->
         exists r, snd (process w n) = Ok (Some r)) ->
      o = Returned /\ exit_status o = value OK /\
      messages st' = [] /\
      map fst (written st') = map (artifact out_dir) (generated_msgs st'))) /\
  summary (main_loop process_msg "/tmp/" 3 (init cycle_ros ["C"; "p/A"])) =
    Some (["p/A"], [], [], Exited 1) /\
  summary (main_loop process_msg "/tmp/" 3 (init cycle_ros ["p/A"])) =
    Some ([], ["p/A"; "p/B"],
          [("/tmp/A.asn", module_A); ("/tmp/B.asn", module_B)], Returned) /\
  summary (main_loop process_msg "/tmp/" 3
             (init bool_ros ["std_msgs/Bool"; "std_msgs/Flag"])) =
    Some (["std_msgs/Flag"], [], [], Raised KeyError) /\
  summary (main_loop process_msg "/tmp/" 3 (init bool_ros ["std_msgs/Flag"]))
  = Some ([], ["std_msgs/Flag"],
          [("/tmp/Flag.asn",
            "Flag-Types DEFINITIONS ::=" ++ nl ++ "BEGIN" ++ nl
            ++ "IMPORTS Bool FROM Bool-Types ;" ++ nl
            ++ "Flag::=" ++ nl ++ "SEQUENCE" ++ nl ++ "{" ++ nl
            ++ tab ++ "flag" ++ tab ++ "Bool" ++ nl ++ "}" ++ nl ++ "END")],
          Raised KeyError) /\
  summary (main_loop process_msg "/tmp/" 3
             (init bool_ros ["nav_msgs/Path"; "std_msgs/Flag"])) =
    Some (["std_msgs/Flag"], [], [], Raised ResourceNotFound).
Proof.
  intros Hincl Hg0 Hgs.
  split; [|split; [|split; [reflexivity|split; [reflexivity|
    split; [reflexivity|split; [reflexivity|split; [reflexivity|
    split; [|repeat split; reflexivity]]]]]]]].
  - intros st msg rest w' fuel Em Ep. simpl. unfold main_step.
    rewrite Em, Ep. reflexivity.
  - intros st msg rest w' e fuel Em Ep. simpl. unfold main_step.
    rewrite Em, Ep. reflexivity.
  - destruct (main_loop_terminates process out_dir U good Hgs
                (S (length U + length names)) (init w0 names) Hg0 Hincl)
      as (st' & o & Hl).
    { pose proof (measure_init U w0 names). lia. }
    exists st', o. split; [assumption|].
    destruct (main_loop_steps _ _ _ _ _ _ Hl) as (st1 & Hs & Hstop).
    destruct (steps_good process out_dir U good Hgs (init w0 names) st1
                Hg0 Hincl Hs) as [Hg1 Hi1].
    destruct (main_step_stop _ _ _ _ _ Hstop)
      as [(Em & -> & ->)|(msg & rest & w & Em & -> & [[Ep ->]|(e & Ep & ->)])].
    + assert (Hw : map fst (written st1)
                   = map (artifact out_dir) (generated_msgs st1))
        by now apply (steps_written process out_dir (init w0 names)).
      split; [auto|]. split; [congruence|]. split; [discriminate|].
      intros _. auto.
    + split; [discriminate|]. split; [|split].
      * intros _. split; [reflexivity|]. split; [discriminate|].
        exists st1, msg, rest. rewrite Ep. cbn [snd messages generated_msgs
          written]. repeat split; auto.
      * intros code Hc. now inversion Hc.
      * intros Hok. exfalso.
        assert (HmU : In msg U) by (apply Hi1; rewrite Em; now left).
        destruct (Hok _ _ Hg1 HmU) as [r Hr]. rewrite Ep in Hr. discriminate.
    + split; [discriminate|]. split; [|split].
      * intros _. split; [reflexivity|]. split; [discriminate|].
        exists st1, msg, rest. rewrite Ep. cbn [snd messages generated_msgs
          written]. repeat split; eauto.
      * discriminate.
      * intros Hok. exfalso.
        assert (HmU : In msg U) by (apply Hi1; rewrite Em; now left).
        destruct (Hok _ _ Hg1 HmU) as [r Hr]. rewrite Ep in Hr. discriminate.
Qed.

Lemma first_failure_halts_witness :
  incl ["std_msgs/Flag"] ["std_msgs/Bool"; "std_msgs/Flag"] /\
  (forall w n, w = bool_ros -> In n ["std_msgs/Bool"; "std_msgs/Flag"] ->
     fst (process_msg w n) = bool_ros /\
     forall text deps,
       snd (process_msg w n) = Ok (Some (text, deps)) ->
       incl deps ["std_msgs/Bool"; "std_msgs/Flag"]) /\
  exists st' o,
    main_loop process_msg "/tmp/" 4 (init bool_ros ["std_msgs/Flag"])
    = Some (st', o) /\
    (o <> Returned -> exit_status o = 1 /\ exit_status o <> 0).
Proof.
  assert (H2 : incl ["std_msgs/Flag"] ["std_msgs/Bool"; "std_msgs/Flag"]).
  { intros x [<-|[]]. right. now left. }
  assert (H3 : forall w n, w = bool_ros ->
     In n ["std_msgs/Bool"; "std_msgs/Flag"] ->
     fst (process_msg w n) = bool_ros /\
     forall text deps,
       snd (process_msg w n) = Ok (Some (text, deps)) ->
       incl deps ["std_msgs/Bool"; "std_msgs/Flag"]).
  { intros w n -> [<-|[<-|[]]].
    - split; [vm_compute; reflexivity|]. intros text deps H.
      vm_compute in H. discriminate H.
    - split; [vm_compute; reflexivity|]. intros text deps H.
      vm_compute in H. inversion H; subst.
      intros x [<-|[]]. now left. }
  split; [exact H2|]. split; [exact H3|].
  destruct (first_failure_halts process_msg "/tmp/"
              ["std_msgs/Bool"; "std_msgs/Flag"]
              (fun w => w = bool_ros) bool_ros ["std_msgs/Flag"]
              H2 eq_refl H3)
    as (_ & _ & _ & _ & _ & _ & _ & (st' & o & Hl & _ & Hn & _) & _).
  exists st', o. split; [exact Hl|].
  intros Ho. destruct (Hn Ho) as (E1 & E2 & _). split; assumption.
Defined.

(** * Further properties of the field classifier *)

(** ** Searching and cutting strings *)

Lemma len_sapp a b : Py.len (a ++ b) = Py.len a + Py.len b.
Proof. unfold Py.len. rewrite length_sapp. lia. Qed.

Lemma len_nonneg s : 0 <= Py.len s.
Proof. unfold Py.len. lia. Qed.

Lemma chars_sapp a b : chars (a ++ b) = (chars a ++ chars b)%list.
Proof. induction a as [|c a IH]; simpl; [reflexivity | now rewrite IH]. Qed.

Lemma find_from_absent c s : forall i,
  ~ In c (chars s) -> Py.find_from c s i = -1.
Proof.
  induction s as [|a s IH]; intros i H; simpl in *; [reflexivity|].
  destruct (Ascii.eqb_spec a c) as [->|Hne]; [tauto|].
  apply IH. tauto.
Qed.

Lemma find_from_at c pre post : forall i,
  ~ In c (chars pre) ->
  Py.find_from c (pre ++ String c post) i = i + Py.len pre.
Proof.
  induction pre as [|a pre IH]; intros i H; simpl in *.
  - rewrite Ascii.eqb_refl. unfold Py.len. simpl. lia.
  - destruct (Ascii.eqb_spec a c) as [->|Hne]; [tauto|].
    rewrite IH by tauto. unfold Py.len. simpl String.length. lia.
Qed.

(** What [find] tells: the character is absent, or the string splits at its
    first occurrence. *)
Lemma find_from_cases c s : forall i,
  (Py.find_from c s i = -1 /\ ~ In c (chars s)) \/
  (exists pre post,
     s = pre ++ String c post /\ ~ In c (chars pre) /\
     Py.find_from c s i = i + Py.len pre).
Proof.
  induction s as [|a s IH]; intros i; simpl.
  - left. split; [reflexivity | tauto].
  - destruct (Ascii.eqb_spec a c) as [->|Hne].
    + right. exists "", s. split; [reflexivity|]. split; [simpl; tauto|].
      unfold Py.len. simpl. lia.
    + destruct (IH (i + 1)) as [[E H]|(pre & post & -> & H & E)].
      * left. split; [assumption|]. simpl. tauto.
      * right. exists (String a pre), post. split; [reflexivity|].
        split; [simpl; tauto|]. rewrite E. unfold Py.len.
        simpl String.length. lia.
Qed.

Lemma string_get_at pre a post :
  String.get (String.length pre) (pre ++ String a post) = Some a.
Proof. induction pre as [|c pre IH]; simpl; [reflexivity | exact IH]. Qed.

Lemma string_get_end s : String.get (String.length s) s = None.
Proof. induction s as [|c s IH]; simpl; [reflexivity | exact IH]. Qed.

Lemma get_at pre a post :
  Py.get (pre ++ String a post) (Py.len pre) = Ok a.
Proof.
  unfold Py.get. pose proof (len_nonneg pre) as H.
  destruct (Z.ltb_spec (Py.len pre) 0) as [|_]; [lia|].
  destruct (Z.ltb_spec (Py.len pre) 0) as [|_]; [lia|].
  unfold Py.len. rewrite Nat2Z.id, string_get_at. reflexivity.
Qed.

Lemma get_end s : Py.get s (Py.len s) = Raise IndexError.
Proof.
  unfold Py.get. pose proof (len_nonneg s) as H.
  destruct (Z.ltb_spec (Py.len s) 0) as [|_]; [lia|].
  destruct (Z.ltb_spec (Py.len s) 0) as [|_]; [lia|].
  unfold Py.len. rewrite Nat2Z.id, string_get_end. reflexivity.
Qed.

Lemma substring_at pre mid post :
  String.substring (String.length pre) (String.length mid)
    (pre ++ mid ++ post) = mid.
Proof.
  induction pre as [|c pre IH]; simpl; [|exact IH].
  induction mid as [|c mid IH]; simpl.
  - now destruct post.
  - now rewrite IH.
Qed.

Lemma clamp_in_range s i : 0 <= i <= Py.len s -> Py.clamp s i = i.
Proof.
  intros H. unfold Py.clamp.
  destruct (Z.ltb_spec i 0) as [|_]; lia.
Qed.

(** [s[len(pre) : len(pre) + len(mid)]] is [mid]. *)
Lemma slice_at pre mid post :
  Py.slice (pre ++ mid ++ post) (Py.len pre) (Py.len pre + Py.len mid) = mid.
Proof.
  unfold Py.slice.
  pose proof (len_nonneg pre). pose proof (len_nonneg mid).
  pose proof (len_nonneg post).
  rewrite !clamp_in_range by (rewrite !len_sapp; lia).
  destruct (Z.leb_spec (Py.len pre + Py.len mid) (Py.len pre)) as [Hle|Hlt].
  - assert (Hm : Py.len mid = 0) by lia.
    unfold Py.len in Hm. destruct mid; [reflexivity | simpl in Hm; lia].
  - replace (Py.len pre + Py.len mid - Py.len pre) with (Py.len mid) by lia.
    unfold Py.len. rewrite !Nat2Z.id. apply substring_at.
Qed.

Lemma slice_prefix pre post : Py.slice (pre ++ post) 0 (Py.len pre) = pre.
Proof.
  pose proof (slice_at "" pre post) as H. simpl in H.
  change (Py.len "") with 0 in H. exact H.
Qed.

(** [s[len(pre) : -1]] is what follows [pre] without the last character. *)
Lemma slice_to_last pre mid c :
  Py.slice (pre ++ mid ++ String c "") (Py.len pre) (-1) = mid.
Proof.
  pose proof (slice_at pre mid (String c "")) as H.
  unfold Py.slice in *.
  assert (E : Py.clamp (pre ++ mid ++ String c "") (-1)
              = Py.clamp (pre ++ mid ++ String c "")
                  (Py.len pre + Py.len mid)).
  { pose proof (len_nonneg pre). pose proof (len_nonneg mid).
    rewrite (clamp_in_range _ (Py.len pre + Py.len mid))
      by (rewrite !len_sapp; change (Py.len (String c "")) with 1; lia).
    unfold Py.clamp. rewrite !len_sapp.
    replace (Py.len (String c "")) with 1 by reflexivity.
    replace (-1 <? 0) with true by reflexivity. lia. }
  rewrite E. exact H.
Qed.

(** ** [int] after [str] *)

Lemma uint_value_pos d : forall acc,
  uint_value d (Z.pos acc) = Z.pos (Pos.of_uint_acc d acc).
Proof.
  induction d; intros acc; simpl; try reflexivity;
    rewrite <- IHd; f_equal; lia.
Qed.

Lemma uint_value_of_uint d : uint_value d 0 = Z.of_N (Pos.of_uint d).
Proof.
  induction d; simpl; try reflexivity; try exact IHd;
    apply (uint_value_pos d).
Qed.

Lemma uint_value_to_uint p : uint_value (Pos.to_uint p) 0 = Z.pos p.
Proof.
  rewrite uint_value_of_uint, DecimalPos.Unsigned.of_to. reflexivity.
Qed.

Lemma digits_string_of_uint d : forall acc,
  Py.digits (NilEmpty.string_of_uint d) acc true = Some (uint_value d acc).
Proof. induction d; intros acc; simpl; try reflexivity; apply IHd. Qed.

Lemma unsigned_string_of_uint d :
  d <> Decimal.Nil ->
  Py.unsigned (NilEmpty.string_of_uint d) = Some (uint_value d 0).
Proof.
  destruct d; intros H; try contradiction;
    unfold Py.unsigned; simpl; apply digits_string_of_uint.
Qed.

Lemma lstrip_no_space s :
  Forall (fun c => Py.is_space c = false) (chars s) -> Py.lstrip s = s.
Proof.
  destruct s as [|c s]; [reflexivity|]. intros H. inversion H; subst.
  simpl. now replace (Py.is_space c) with false.
Qed.

Lemma rstrip_no_space s :
  Forall (fun c => Py.is_space c = false) (chars s) -> Py.rstrip s = s.
Proof.
  induction s as [|c s IH]; [reflexivity|]. intros H. inversion H; subst.
  simpl. rewrite IH by assumption.
  destruct s; [|reflexivity]. now replace (Py.is_space c) with false.
Qed.

Lemma strip_no_space s :
  Forall (fun c => Py.is_space c = false) (chars s) -> Py.strip s = s.
Proof.
  intros H. unfold Py.strip. rewrite lstrip_no_space by assumption.
  now apply rstrip_no_space.
Qed.

Lemma string_of_uint_chars (P : ascii -> Prop) d :
  (forall c, In c (chars "0123456789") -> P c) ->
  Forall P (chars (NilEmpty.string_of_uint d)).
Proof.
  intros H. induction d; simpl; constructor; try assumption;
    apply H; simpl; tauto.
Qed.

Lemma string_of_uint_no_space d :
  Forall (fun c => Py.is_space c = false)
    (chars (NilEmpty.string_of_uint d)).
Proof.
  apply string_of_uint_chars. intros c H. simpl in H.
  repeat (destruct H as [<-|H]; [reflexivity|]). destruct H.
Qed.

(** [int(str(n))] is [n]. *)
Lemma int_str n : Py.int (Py.str n) = Ok n.
Proof.
  unfold Py.str, Py.int. destruct n as [|p|p]; [reflexivity| |].
  - cbn [Z.to_int NilZero.string_of_int].
    pose proof (DecimalPos.Unsigned.to_uint_nonnil p) as Hn.
    pose proof (uint_value_to_uint p) as Hv.
    pose proof (string_of_uint_no_space (Pos.to_uint p)) as Hs.
    pose proof (unsigned_string_of_uint (Pos.to_uint p) Hn) as Hu.
    destruct (Pos.to_uint p) eqn:E; try contradiction;
      cbn [NilZero.string_of_uint NilEmpty.string_of_uint] in *;
      rewrite strip_no_space by assumption;
      cbv iota; rewrite Hu, Hv; reflexivity.
  - cbn [Z.to_int NilZero.string_of_int].
    pose proof (DecimalPos.Unsigned.to_uint_nonnil p) as Hn.
    pose proof (uint_value_to_uint p) as Hv.
    pose proof (string_of_uint_no_space (Pos.to_uint p)) as Hs.
    pose proof (unsigned_string_of_uint (Pos.to_uint p) Hn) as Hu.
    destruct (Pos.to_uint p) eqn:E; try contradiction;
      cbn [NilZero.string_of_uint NilEmpty.string_of_uint] in *;
      (rewrite strip_no_space
         by (simpl; constructor; [reflexivity | assumption]));
      cbv iota; rewrite Hu, Hv; reflexivity.
Qed.

Lemma str_chars n :
  Forall (fun c => In c (chars "-0123456789")) (chars (Py.str n)).
Proof.
  assert (Hd : forall d,
    Forall (fun c => In c (chars "-0123456789"))
      (chars (NilEmpty.string_of_uint d))).
  { intros d. apply string_of_uint_chars. intros c H. right. exact H. }
  assert (H0 : Forall (fun c => In c (chars "-0123456789")) (chars "0")).
  { constructor; [right; left; reflexivity | constructor]. }
  unfold Py.str. destruct n as [|p|p]; cbn [Z.to_int NilZero.string_of_int].
  - exact H0.
  - pose proof (Hd (Pos.to_uint p)) as H.
    destruct (Pos.to_uint p); cbn [NilZero.string_of_uint];
      [exact H0 | exact H ..].
  - pose proof (Hd (Pos.to_uint p)) as H.
    change (chars (String "-" ?s)) with ("-"%char :: chars s).
    constructor; [now left|].
    destruct (Pos.to_uint p); cbn [NilZero.string_of_uint];
      [exact H0 | exact H ..].
Qed.

Lemma str_not_empty n : Py.str n <> "".
Proof.
  unfold Py.str. destruct n as [|p|p]; cbn [Z.to_int NilZero.string_of_int];
    try discriminate.
  destruct (Pos.to_uint p); discriminate.
Qed.

(** ** [find_field_type] on every shape of type name *)

Lemma find_at c pre post :
  ~ In c (chars pre) -> Py.find c (pre ++ String c post) = Py.len pre.
Proof.
  intros H. unfold Py.find. rewrite find_from_at by assumption. lia.
Qed.

Lemma find_absent c s : ~ In c (chars s) -> Py.find c s = -1.
Proof. apply find_from_absent. Qed.

Lemma len_not_minus_one s : (Py.len s =? -1) = false.
Proof. pose proof (len_nonneg s). apply Z.eqb_neq. lia. Qed.

(** The character after the bracket that ends [base ++ "["]. *)
Lemma get_after_bracket base c post :
  Py.get (base ++ "[" ++ String c post) (Py.len base + 1) = Ok c.
Proof.
  pose proof (get_at (base ++ "[") c post) as H.
  rewrite len_sapp, sapp_assoc in H. exact H.
Qed.

Lemma slice_after_bracket base mid post :
  Py.slice (base ++ "[" ++ mid ++ post) (Py.len base + 1)
    (Py.len base + 1 + Py.len mid) = mid.
Proof.
  pose proof (slice_at (base ++ "[") mid post) as H.
  rewrite len_sapp, sapp_assoc in H. exact H.
Qed.

(** Between [base ++ "["] and the first ["]"]: the length is what [int]
    makes of the text [mid], when [mid] is not empty. *)
Lemma find_field_type_between base mid rest :
  ~ In "["%char (chars base) -> ~ In "]"%char (chars base) ->
  mid <> "" -> ~ In "]"%char (chars mid) ->
  find_field_type (base ++ "[" ++ mid ++ "]" ++ rest) =
  (n ← Py.int mid; Ok (base, fixed_length, n)).
Proof.
  intros Hb Hb' Hne Hm. destruct mid as [|c mid]; [congruence|].
  unfold find_field_type.
  change (base ++ "[" ++ String c mid ++ "]" ++ rest)
    with (base ++ String "[" (String c mid ++ "]" ++ rest)).
  rewrite find_at, len_not_minus_one by assumption.
  change (base ++ String "[" (String c mid ++ "]" ++ rest))
    with (base ++ "[" ++ String c (mid ++ "]" ++ rest)).
  rewrite get_after_bracket. unfold mbind, res_bind.
  destruct (Ascii.eqb_spec c "]") as [->|Hc]; [simpl in Hm; tauto|].
  assert (E : Py.find "]" (base ++ "[" ++ String c (mid ++ "]" ++ rest))
              = Py.len base + 1 + Py.len (String c mid)).
  { replace (base ++ "[" ++ String c (mid ++ "]" ++ rest))
      with ((base ++ "[" ++ String c mid) ++ String "]" rest)
      by (rewrite !sapp_assoc; reflexivity).
    rewrite find_at.
    - rewrite !len_sapp. change (Py.len "[") with 1. lia.
    - rewrite !chars_sapp, !in_app_iff. simpl in *.
      intros [H|[[H|[]]|H]]; [tauto | discriminate | tauto]. }
  rewrite E.
  change (base ++ "[" ++ String c (mid ++ "]" ++ rest))
    with (base ++ "[" ++ String c mid ++ "]" ++ rest).
  rewrite slice_after_bracket.
  replace (base ++ "[" ++ String c mid ++ "]" ++ rest)
    with (base ++ ("[" ++ String c mid ++ "]" ++ rest)) by reflexivity.
  rewrite slice_prefix.
  destruct (Py.int (String c mid)); reflexivity.
Qed.

Ltac not_in_chars :=
  let H := fresh in
  intros H; simpl in H;
  repeat (destruct H as [H|H]; [discriminate H|]); exact H.

(** X1.  [find_field_type] returns a type name as it is, as a scalar of
    length 1, exactly when the name holds no opening bracket. *)
Theorem find_field_type_scalar (s : string) :
  find_field_type s = Ok (s, simple, 1) <-> ~ In "["%char (chars s).
Proof.
  unfold find_field_type.
  destruct (find_from_cases "[" s 0) as [[E H]|(pre & post & -> & H & _)].
  - unfold Py.find. rewrite E. simpl. tauto.
  - rewrite find_at, len_not_minus_one by assumption. split.
    + intros Hr. exfalso. unfold mbind, res_bind in Hr.
      destruct (Py.get _ _) as [c|]; [|discriminate].
      destruct (Ascii.eqb c "]"); [discriminate|].
      destruct (Py.int _); discriminate.
    + intros Hn. exfalso. apply Hn. rewrite chars_sapp.
      apply in_or_app. right. now left.
Qed.

(** X2.  Whatever [find_field_type] returns, the base type is the part of
    the name before its first opening bracket, so it holds no bracket; a
    scalar is the whole name with length 1, a variable-length array has
    ["[]"] after the base type and length 1, a fixed-length array has a
    bracket followed by something else than a closing bracket. *)
Theorem find_field_type_inversion (s b : string) (k : field_type) (n : Z) :
  find_field_type s = Ok (b, k, n) ->
  ~ In "["%char (chars b) /\
  match k with
  | simple => s = b /\ n = 1
  | variable_length => n = 1 /\ exists rest, s = b ++ "[]" ++ rest
  | fixed_length =>
      exists c rest, s = b ++ "[" ++ String c rest /\ c <> "]"%char
  end.
Proof.
  unfold find_field_type.
  destruct (find_from_cases "[" s 0) as [[E H]|(pre & post & -> & H & _)].
  - unfold Py.find. rewrite E. simpl. intros Hr. inversion Hr; subst.
    tauto.
  - rewrite find_at, len_not_minus_one by assumption.
    destruct post as [|c post].
    + pose proof (get_end (pre ++ "[")) as Hg. rewrite len_sapp in Hg.
      change (Py.len "[") with 1 in Hg. rewrite Hg. discriminate.
    + change (pre ++ String "[" (String c post))
        with (pre ++ "[" ++ String c post).
      rewrite get_after_bracket. unfold mbind, res_bind.
      replace (Py.slice (pre ++ "[" ++ String c post) 0 (Py.len pre))
        with pre by (symmetry; apply slice_prefix).
      destruct (Ascii.eqb_spec c "]") as [->|Hc].
      * intros Hr. inversion Hr; subst. split; [assumption|].
        split; [reflexivity|]. now exists post.
      * destruct (Py.int _); [|discriminate].
        intros Hr. inversion Hr; subst. split; [assumption|].
        now exists c, post.
Qed.

Lemma find_field_type_inversion_witness :
  find_field_type "int32[]" = Ok ("int32", variable_length, 1) /\
  ~ In "["%char (chars "int32") /\
  1 = 1 /\ exists rest, "int32[]" = "int32" ++ "[]" ++ rest.
Proof.
  split; [reflexivity|].
  exact (find_field_type_inversion "int32[]" "int32" variable_length 1
           eq_refl).
Defined.

(** X3.  A base type without an opening bracket, followed by ["[]"], is a
    variable-length array of that base type, whatever follows the
    brackets. *)
Theorem find_field_type_variable (base rest : string) :
  ~ In "["%char (chars base) ->
  find_field_type (base ++ "[]" ++ rest) = Ok (base, variable_length, 1).
Proof.
  intros Hb. unfold find_field_type.
  change (base ++ "[]" ++ rest) with (base ++ String "[" (String "]" rest)).
  rewrite find_at, len_not_minus_one by assumption.
  change (base ++ String "[" (String "]" rest))
    with (base ++ "[" ++ String "]" rest).
  rewrite get_after_bracket. unfold mbind, res_bind. simpl Ascii.eqb.
  cbv iota. rewrite slice_prefix. reflexivity.
Qed.

Lemma find_field_type_variable_witness :
  ~ In "["%char (chars "geometry_msgs/Point") /\
  find_field_type ("geometry_msgs/Point" ++ "[]" ++ " ")
  = Ok ("geometry_msgs/Point", variable_length, 1).
Proof.
  assert (H : ~ In "["%char (chars "geometry_msgs/Point"))
    by not_in_chars.
  split; [exact H|].
  exact (find_field_type_variable "geometry_msgs/Point" " " H).
Defined.

(** X4.  Writing a length with [str] between the brackets and reading the
    type name back gives that length: for a base type without brackets and
    any integer [n], also a negative one, the name
    [base ++ "[" ++ str(n) ++ "]"], with anything after it, is a
    fixed-length array of [base] of length [n]. *)
Theorem find_field_type_fixed_round_trip (base rest : string) (n : Z) :
  ~ In "["%char (chars base) -> ~ In "]"%char (chars base) ->
  find_field_type (base ++ "[" ++ Py.str n ++ "]" ++ rest)
  = Ok (base, fixed_length, n).
Proof.
  intros Hb Hb'.
  rewrite find_field_type_between; try assumption.
  - rewrite int_str. reflexivity.
  - apply str_not_empty.
  - intros Hin. pose proof (str_chars n) as Hf.
    rewrite List.Forall_forall in Hf. apply Hf in Hin. revert Hin.
    not_in_chars.
Qed.

Lemma find_field_type_fixed_round_trip_witness :
  ~ In "["%char (chars "float64") /\ ~ In "]"%char (chars "float64") /\
  find_field_type ("float64" ++ "[" ++ Py.str 36 ++ "]" ++ "")
  = Ok ("float64", fixed_length, 36).
Proof.
  assert (H1 : ~ In "["%char (chars "float64")) by not_in_chars.
  assert (H2 : ~ In "]"%char (chars "float64")) by not_in_chars.
  split; [exact H1|]. split; [exact H2|].
  exact (find_field_type_fixed_round_trip "float64" "" 36 H1 H2).
Defined.

(** X5.  A type name that ends with its first opening bracket makes
    [find_field_type] raise [IndexError]: [slot_type[idx + 1]] is read past
    the end. *)
Theorem find_field_type_open_bracket_last (base : string) :
  ~ In "["%char (chars base) ->
  find_field_type (base ++ "[") = Raise IndexError.
Proof.
  intros Hb. unfold find_field_type.
  rewrite find_at, len_not_minus_one by assumption.
  pose proof (get_end (base ++ "[")) as Hg. rewrite len_sapp in Hg.
  change (Py.len "[") with 1 in Hg. rewrite Hg. reflexivity.
Qed.

Lemma find_field_type_open_bracket_last_witness :
  ~ In "["%char (chars "uint8") /\
  find_field_type ("uint8" ++ "[") = Raise IndexError.
Proof.
  assert (H : ~ In "["%char (chars "uint8")) by not_in_chars.
  split; [exact H|].
  exact (find_field_type_open_bracket_last "uint8" H).
Defined.

(** X6.  When the bracket is never closed, [find] returns [-1] for the
    closing bracket and the slice stops before the last character: the
    length is read from the text after the bracket without its last
    character, no error is raised for the missing bracket. *)
Theorem find_field_type_unclosed (base mid : string) (c : ascii) :
  ~ In "["%char (chars base) ->
  ~ In "]"%char (chars (base ++ "[" ++ mid ++ String c "")) ->
  find_field_type (base ++ "[" ++ mid ++ String c "")
  = (n ← Py.int mid; Ok (base, fixed_length, n)).
Proof.
  intros Hb Hc. unfold find_field_type.
  assert (Ef : Py.find "[" (base ++ "[" ++ mid ++ String c "")
               = Py.len base).
  { apply (find_at "[" base (mid ++ String c "")). assumption. }
  rewrite Ef, len_not_minus_one.
  assert (Hg : exists d, Py.get (base ++ "[" ++ mid ++ String c "")
                           (Py.len base + 1) = Ok d /\ d <> "]"%char).
  { rewrite !chars_sapp, !in_app_iff in Hc.
    destruct mid as [|d mid].
    - exists c. split; [apply get_after_bracket|].
      intros ->. apply Hc. right. right. right. now left.
    - exists d. split; [apply (get_after_bracket base d)|].
      intros ->. apply Hc. right. right. left. now left. }
  destruct Hg as (d & -> & Hd). unfold mbind, res_bind.
  destruct (Ascii.eqb_spec d "]") as [|_]; [contradiction|].
  rewrite (find_absent "]") by assumption.
  pose proof (slice_to_last (base ++ "[") mid c) as Hs.
  rewrite len_sapp, sapp_assoc in Hs. change (Py.len "[") with 1 in Hs.
  rewrite Hs.
  replace (base ++ "[" ++ mid ++ String c "")
    with (base ++ ("[" ++ mid ++ String c "")) by reflexivity.
  rewrite slice_prefix. destruct (Py.int mid); reflexivity.
Qed.

Lemma find_field_type_unclosed_witness :
  ~ In "["%char (chars "uint8") /\
  ~ In "]"%char (chars ("uint8" ++ "[" ++ "1" ++ String "6" "")) /\
  find_field_type "uint8[16" = Ok ("uint8", fixed_length, 1).
Proof.
  assert (H1 : ~ In "["%char (chars "uint8")) by not_in_chars.
  assert (H2 : ~ In "]"%char (chars ("uint8" ++ "[" ++ "1" ++ String "6" "")))
    by not_in_chars.
  split; [exact H1|]. split; [exact H2|].
  exact (find_field_type_unclosed "uint8" "1" "6" H1 H2).
Defined.

(** * Further properties of names with a package *)

Lemma split_absent sep s : ~ In sep (chars s) -> Py.split sep s = [s].
Proof.
  induction s as [|a s IH]; intros H; simpl in *; [reflexivity|].
  destruct (Ascii.eqb_spec a sep) as [->|_]; [tauto|].
  rewrite IH by tauto. reflexivity.
Qed.

Lemma split_at sep pre post :
  ~ In sep (chars pre) ->
  Py.split sep (pre ++ String sep post) = pre :: Py.split sep post.
Proof.
  induction pre as [|a pre IH]; intros H; simpl in *.
  - now rewrite Ascii.eqb_refl.
  - destruct (Ascii.eqb_spec a sep) as [->|_]; [tauto|].
    rewrite IH by tauto. reflexivity.
Qed.

Lemma split_pair sep pre post :
  ~ In sep (chars pre) -> ~ In sep (chars post) ->
  Py.split sep (pre ++ String sep post) = [pre; post].
Proof.
  intros H1 H2. rewrite split_at, split_absent by assumption. reflexivity.
Qed.

Lemma contains_In c s : Py.contains c s = true <-> In c (chars s).
Proof.
  unfold Py.contains, Py.find. rewrite negb_true_iff, Z.eqb_neq.
  destruct (find_from_cases c s 0) as [[E H]|(pre & post & -> & H & E)].
  - rewrite E. tauto.
  - rewrite E. pose proof (len_nonneg pre). split; [|lia].
    intros _. rewrite chars_sapp. apply in_or_app. right. now left.
Qed.

Lemma contains_false c s : Py.contains c s = false <-> ~ In c (chars s).
Proof.
  rewrite <- contains_In. destruct (Py.contains c s); split; congruence.
Qed.

Lemma primitive_no_slash t :
  Py.mem t ros_primitive_type = true -> ~ In "/"%char (chars t).
Proof.
  intros H. apply mem_In in H. simpl in H.
  repeat (destruct H as [<-|H]; [not_in_chars|]). destruct H.
Qed.

Lemma In_slash_middle pkg nm : In "/"%char (chars (pkg ++ "/" ++ nm)).
Proof. rewrite chars_sapp. apply in_or_app. right. now left. Qed.

(** X7.  A name [pkg/Name] is never primitive for [find_ASN1_type]: its
    notation type is [Name] and its library [Name-Types], so the package
    plays no part, and messages of the same name in two packages get the
    same type and the same library. *)
Theorem find_ASN1_type_qualified (pkg nm : string) :
  ~ In "/"%char (chars pkg) -> ~ In "/"%char (chars nm) ->
  find_ASN1_type (pkg ++ "/" ++ nm) = Ok (nm, nm ++ "-Types", false).
Proof.
  intros Hp Hn. unfold find_ASN1_type.
  destruct (Py.mem (pkg ++ "/" ++ nm) ros_primitive_type) eqn:E.
  - apply primitive_no_slash in E. destruct E. apply In_slash_middle.
  - change (pkg ++ "/" ++ nm) with (pkg ++ String "/" nm).
    rewrite split_pair by assumption. reflexivity.
Qed.

Lemma find_ASN1_type_qualified_witness :
  ~ In "/"%char (chars "geometry_msgs") /\ ~ In "/"%char (chars "Pose") /\
  find_ASN1_type ("geometry_msgs" ++ "/" ++ "Pose")
  = Ok ("Pose", "Pose" ++ "-Types", false).
Proof.
  assert (H1 : ~ In "/"%char (chars "geometry_msgs")) by not_in_chars.
  assert (H2 : ~ In "/"%char (chars "Pose")) by not_in_chars.
  split; [exact H1|]. split; [exact H2|].
  exact (find_ASN1_type_qualified "geometry_msgs" "Pose" H1 H2).
Defined.

(** X8.  [find_ASN1_type] raises [IndexError] exactly on the names that
    are not in [ros_primitive_type] and hold no [/]: the warning about a
    composed type of length 1 is followed by the read of
    [composed_type[1]]. *)
Theorem find_ASN1_type_IndexError (t : string) :
  find_ASN1_type t = Raise IndexError <->
  Py.mem t ros_primitive_type = false /\ ~ In "/"%char (chars t).
Proof.
  split.
  - intros H. destruct (Py.mem t ros_primitive_type) eqn:E.
    + exfalso. apply mem_In in E. simpl in E.
      repeat (destruct E as [<-|E]; [vm_compute in H; discriminate H|]).
      exact E.
    + split; [reflexivity|]. intros Hin. apply contains_In in Hin.
      unfold Py.contains, Py.find in Hin.
      apply negb_true_iff, Z.eqb_neq in Hin.
      destruct (split_two _ _ _ Hin) as (a & b & rest & Es).
      unfold find_ASN1_type in H. rewrite E, Es in H. discriminate H.
  - intros [Hm Hs]. unfold find_ASN1_type.
    rewrite Hm, split_absent by assumption. reflexivity.
Qed.

(** * Further properties of [save_msg] and of the start of [main] *)

(** X9.  [save_msg] drops the package of a name: [pkg/Name] is written to
    [out_dir ++ Name ++ ".asn"], the file [Name] alone is written to, so
    the modules of two messages of the same name in different packages
    take the same path. *)
Theorem save_msg_drops_package (fs : files)
    (asn1_str pkg nm out_dir : string) :
  ~ In "/"%char (chars pkg) -> ~ In "/"%char (chars nm) ->
  save_msg fs asn1_str (pkg ++ "/" ++ nm) out_dir
  = Ok (app fs [(out_dir ++ nm ++ ".asn", asn1_str)]) /\
  save_msg fs asn1_str nm out_dir
  = Ok (app fs [(out_dir ++ nm ++ ".asn", asn1_str)]).
Proof.
  intros Hp Hn. unfold save_msg. split.
  - replace (Py.contains "/" (pkg ++ "/" ++ nm)) with true
      by (symmetry; apply contains_In, In_slash_middle).
    change (pkg ++ "/" ++ nm) with (pkg ++ String "/" nm).
    rewrite split_pair by assumption. reflexivity.
  - replace (Py.contains "/" nm) with false
      by (symmetry; now apply contains_false).
    reflexivity.
Qed.

Lemma save_msg_drops_package_witness :
  ~ In "/"%char (chars "std_msgs") /\ ~ In "/"%char (chars "Header") /\
  save_msg [] "text" ("std_msgs" ++ "/" ++ "Header") "out/"
  = Ok [("out/" ++ "Header" ++ ".asn", "text")] /\
  save_msg [] "text" "Header" "out/"
  = Ok [("out/" ++ "Header" ++ ".asn", "text")].
Proof.
  assert (H1 : ~ In "/"%char (chars "std_msgs")) by not_in_chars.
  assert (H2 : ~ In "/"%char (chars "Header")) by not_in_chars.
  split; [exact H1|]. split; [exact H2|].
  exact (save_msg_drops_package [] "text" "std_msgs" "Header" "out/" H1 H2).
Defined.

Lemma last_char s : s <> "" -> exists pre c, s = pre ++ String c "".
Proof.
  induction s as [|a s IH]; intros H; [congruence|].
  destruct s as [|b s].
  - now exists "", a.
  - destruct IH as (pre & c & E); [discriminate|].
    exists (String a pre), c. simpl. now rewrite <- E.
Qed.

Lemma get_last pre c : Py.get (pre ++ String c "") (-1) = Ok c.
Proof.
  unfold Py.get. rewrite len_sapp. change (Py.len (String c "")) with 1.
  replace (-1 <? 0) with true by reflexivity.
  pose proof (len_nonneg pre) as H.
  replace (-1 + (Py.len pre + 1)) with (Py.len pre) by lia.
  destruct (Z.ltb_spec (Py.len pre) 0) as [|_]; [lia|].
  unfold Py.len. rewrite Nat2Z.id, string_get_at. reflexivity.
Qed.

(** X10.  The output directory of [main]: an empty [--output] raises
    [IndexError]; any other is kept when it ends with [/] and gets a [/]
    appended otherwise, so the directory used always ends with [/], and
    normalising it again changes nothing. *)
Theorem main_out_dir_normalises (output : string) :
  match main_out_dir output with
  | Raise e => output = "" /\ e = IndexError
  | Ok d =>
      output <> "" /\
      (exists pre, d = pre ++ "/") /\
      (d = output \/
       d = output ++ "/" /\ forall pre, output <> pre ++ "/") /\
      main_out_dir d = Ok d
  end.
Proof.
  destruct output as [|a s] eqn:Eo; [split; reflexivity|].
  rewrite <- Eo. assert (Hne : output <> "") by (subst; discriminate).
  clear Eo a s.
  destruct (last_char output Hne) as (pre & c & ->).
  unfold main_out_dir. rewrite get_last. unfold mbind, res_bind.
  destruct (Ascii.eqb_spec c "/") as [->|Hc]; simpl negb; cbv iota.
  - split; [assumption|]. split; [now exists pre|].
    split; [now left|]. rewrite get_last. reflexivity.
  - split; [assumption|]. split; [now eexists|]. split.
    + right. split; [reflexivity|]. intros pre' E.
      assert (Hl : forall x y c1 c2,
                x ++ String c1 "" = y ++ String c2 "" -> c1 = c2).
      { induction x as [|a x IH]; intros [|b y] c1 c2 H; simpl in H.
        - now inversion H.
        - inversion H. destruct y; discriminate.
        - inversion H. destruct x; discriminate.
        - inversion H. eauto. }
      apply Hl in E. contradiction.
    + rewrite (get_last (pre ++ String c "") "/"). reflexivity.
Qed.

(** * Further properties of the translation of one message *)

(** ** What happens to [slots] *)

Lemma extended_refl l : extended l l.
Proof.
  induction l as [|s l IH]; constructor; [|exact IH].
  exists "". now rewrite sapp_nil_r.
Qed.

Lemma extended_trans l1 l2 l3 :
  extended l1 l2 -> extended l2 l3 -> extended l1 l3.
Proof.
  intros H. revert l3.
  induction H as [|a b l1 l2 (x & ->) H IH]; intros l3 H3;
    inversion H3 as [|? c ? l3' (y & ->) H3']; subst; constructor.
  - exists (x ++ y). apply sapp_assoc.
  - now apply IH.
Qed.

Lemma extended_insert l i s suffix :
  l !! i = Some s -> extended l (<[i := s ++ suffix]> l).
Proof.
  revert i. induction l as [|a l IH]; intros [|i] H; try discriminate.
  - inversion H; subst. constructor; [now exists suffix|].
    apply extended_refl.
  - constructor; [|now apply IH]. exists "". now rewrite sapp_nil_r.
Qed.

Lemma rename_slot_extended slots i ty slots' :
  rename_slot slots i ty = Ok slots' -> extended slots slots'.
Proof.
  unfold rename_slot, mbind, res_bind.
  destruct (Py.nth slots i) as [slot|] eqn:E1; [|discriminate].
  apply nth_lookup in E1.
  set (slots1 := if String.eqb slot "type"
                 then <[i := slot ++ "-" ++ ty]> slots else slots).
  assert (H1 : extended slots slots1).
  { unfold slots1. destruct (String.eqb slot "type");
      [now apply extended_insert | apply extended_refl]. }
  destruct (Py.nth slots1 i) as [slot1|] eqn:E2; [|discriminate].
  apply nth_lookup in E2. intros H. inversion H; subst.
  apply (extended_trans _ _ _ H1).
  destruct (String.eqb (Py.lower slot1) (Py.lower ty));
    [now apply extended_insert | apply extended_refl].
Qed.

Lemma renaming_extended tys i slots r :
  (ty ← Py.nth tys i;
   slots' ← rename_slot slots i ty;
   slot ← Py.nth slots' i;
   Ok (slots', slot, ty)) = Ok r ->
  extended slots (fst (fst r)).
Proof.
  unfold mbind, res_bind. intros H.
  destruct (Py.nth tys i) as [ty|]; [|discriminate].
  destruct (rename_slot slots i ty) as [slots'|] eqn:E; [|discriminate].
  destruct (Py.nth slots' i); inversion H; subst.
  now apply rename_slot_extended in E.
Qed.

Lemma emit_fields_extended fts tys indices : forall slots s comma,
  extended slots (fst (emit_fields fts tys indices slots s comma)).
Proof.
  induction indices as [|i rest IH]; intros slots s comma; simpl.
  - apply extended_refl.
  - destruct (Py.nth fts i) as [ft|]; [|apply extended_refl].
    destruct (field_type_eqb ft simple); [|apply IH].
    destruct (_ ← Py.nth tys i; _) as [[[slots' slot] ty]|] eqn:E;
      [|apply extended_refl].
    apply renaming_extended in E.
    eapply extended_trans; [exact E | apply IH].
Qed.

Lemma emit_body_extended msg_name num_fields fts tys slots s :
  extended slots (fst (emit_body msg_name num_fields fts tys slots s)).
Proof.
  unfold emit_body. destruct (num_fields =? 1)%nat.
  - destruct (Py.nth fts 0) as [ft|]; [|apply extended_refl].
    destruct (field_type_eqb ft simple); [|apply extended_refl].
    destruct (_ ← Py.nth tys 0; _) as [[[slots' slot] ty]|] eqn:E;
      [|apply extended_refl].
    now apply renaming_extended in E.
  - match goal with
    | |- context [emit_fields ?a ?b ?c ?d ?e ?f] =>
        pose proof (emit_fields_extended a b c d e f) as H;
        destruct (emit_fields a b c d e f) as [slots' [t|e']]
    end; exact H.
Qed.

Lemma translate_extended msg_name slots slot_types :
  extended slots (fst (translate msg_name slots slot_types)).
Proof.
  unfold translate.
  destruct (scan_slot_types slot_types scan0) as [a|];
    [|apply extended_refl].
  destruct (_ ← emit_fixed _ _ _ _; _) as [st|]; [|apply extended_refl].
  match goal with
  | |- context [emit_body ?a ?b ?c ?d ?e ?f] =>
      pose proof (emit_body_extended a b c d e f) as H;
      destruct (emit_body a b c d e f) as [slots' [t|e']]
  end; exact H.
Qed.

(** X11.  Whatever the translation of a message does, it returns or it
    raises, the list [slots] keeps its length and every entry keeps what it
    held as a prefix: the translation only ever appends to field names. *)
Theorem translate_extends_slots (msg_name : string)
    (slots slot_types : list string) :
  let slots' := fst (translate msg_name slots slot_types) in
  length slots' = length slots /\
  forall i s, slots !! i = Some s ->
    exists suffix, slots' !! i = Some (s ++ suffix).
Proof.
  pose proof (translate_extended msg_name slots slot_types) as H.
  cbv zeta. split; [symmetry; exact (Forall2_length _ _ _ H)|].
  intros i s Hi.
  destruct (Forall2_lookup_l _ _ _ _ _ H Hi) as (s' & Hs' & suffix & ->).
  now exists suffix.
Qed.

(** ** A second translation of the same class *)

Lemma not_type_field s : String.eqb (s ++ "-field") "type" = false.
Proof.
  apply String.eqb_neq. intros E. apply (f_equal String.length) in E.
  rewrite length_sapp in E. simpl in E. lia.
Qed.

(** Renaming a renamed field changes nothing. *)
Lemma renamed_idempotent slot ty :
  Layout.renamed (Layout.renamed slot ty) ty = Layout.renamed slot ty.
Proof.
  destruct (String.eqb_spec slot "type") as [->|Hs].
  - rewrite renamed_type, renamed_other by discriminate.
    rewrite lower_differs; [reflexivity|].
    rewrite !length_sapp. simpl. lia.
  - rewrite (renamed_other slot) by assumption.
    destruct (String.eqb_spec (Py.lower slot) (Py.lower ty)) as [E|E].
    + unfold Layout.renamed. rewrite not_type_field.
      rewrite lower_differs; [reflexivity|].
      apply (f_equal String.length) in E. rewrite !length_lower in E.
      rewrite length_sapp. simpl. lia.
    + rewrite renamed_other by assumption.
      apply String.eqb_neq in E. now rewrite E.
Qed.

Lemma effective_type_settled f :
  (Layout.kind f <> simple -> Layout.name f <> "type") ->
  Layout.effective_type (settled f) = Layout.effective_type f.
Proof.
  intros H. destruct f as [n b k z a l p]. unfold settled, with_name.
  unfold Layout.effective_type. simpl in *.
  destruct k; [reflexivity| |];
    (rewrite (renamed_array _ n) by (apply H; discriminate));
    reflexivity.
Qed.

Lemma emitted_name_settled f :
  (Layout.kind f <> simple -> Layout.name f <> "type") ->
  Layout.emitted_name (settled f) = Layout.emitted_name f.
Proof.
  intros H. unfold Layout.emitted_name.
  rewrite effective_type_settled by assumption.
  unfold settled at 1, with_name. cbn [Layout.name].
  now rewrite renamed_idempotent.
Qed.

Lemma classify_with_name slot slot' slot_type f :
  Layout.classify slot slot_type = Ok f ->
  Layout.name f = slot /\
  Layout.classify slot' slot_type = Ok (with_name slot' f).
Proof.
  unfold Layout.classify, mbind, res_bind. intros H.
  destruct (find_field_type slot_type) as [[[b k] n]|]; [|discriminate].
  destruct (find_ASN1_type b) as [[[a l] p]|]; inversion H; subst.
  split; reflexivity.
Qed.

Lemma classify_all_settled slot_types : forall slots fs,
  Layout.classify_all slots slot_types = Ok fs ->
  Layout.classify_all (Layout.slots_after slots fs) slot_types
  = Ok (map settled fs).
Proof.
  induction slot_types as [|st sts IH]; intros slots fs H; simpl in H.
  - inversion H; subst. destruct slots; reflexivity.
  - destruct slots as [|slot slots]; [discriminate|].
    unfold mbind, res_bind in H.
    destruct (Layout.classify slot st) as [f|] eqn:Ef; [|discriminate].
    destruct (Layout.classify_all slots sts) as [fs'|] eqn:E;
      inversion H; subst.
    destruct (classify_with_name slot
                (Layout.renamed slot (Layout.effective_type f)) st f Ef)
      as [En Ec].
    simpl. unfold mbind, res_bind. rewrite Ec, (IH _ _ E).
    unfold settled at 2. now rewrite En.
Qed.

Lemma filter_map_settled (p : Layout.field -> bool) fs :
  (forall f, p (settled f) = p f) ->
  List.filter p (map settled fs) = map settled (List.filter p fs).
Proof.
  intros H. induction fs as [|f fs IH]; simpl; [reflexivity|].
  rewrite H. destruct (p f); simpl; now rewrite IH.
Qed.

Lemma map_settled {A} (g : Layout.field -> A) fs :
  (forall f, In f fs -> g (settled f) = g f) ->
  map g (map settled fs) = map g fs.
Proof.
  intros H. rewrite map_map. apply map_ext_in. exact H.
Qed.

Section Settled.
Variable fs : list Layout.field.
Hypothesis arrays_not_type :
  forall f, In f fs -> Layout.kind f <> simple -> Layout.name f <> "type".

Lemma imports_settled : Layout.imports (map settled fs) = Layout.imports fs.
Proof.
  unfold Layout.imports.
  rewrite (map_settled Layout.lib) by reflexivity.
  apply map_ext. intros l.
  rewrite filter_map_settled by reflexivity.
  rewrite (map_settled Layout.asn1) by reflexivity. reflexivity.
Qed.

Lemma sequence_definitions_settled k :
  map Layout.sequence_definition
    (List.filter (Layout.has_kind k) (map settled fs))
  = map Layout.sequence_definition (List.filter (Layout.has_kind k) fs).
Proof.
  rewrite filter_map_settled by reflexivity.
  apply map_settled. intros f Hf. apply filter_In in Hf as [Hf _].
  unfold Layout.sequence_definition.
  rewrite effective_type_settled by now apply arrays_not_type.
  reflexivity.
Qed.

Lemma body_settled msg_name :
  Layout.body msg_name (map settled fs) = Layout.body msg_name fs.
Proof.
  unfold Layout.body. rewrite (map_settled Layout.body_field); [reflexivity|].
  intros f Hf. unfold Layout.body_field.
  rewrite effective_type_settled, emitted_name_settled
    by now apply arrays_not_type.
  reflexivity.
Qed.

Lemma module_text_settled msg_name :
  Layout.module_text msg_name (map settled fs)
  = Layout.module_text msg_name fs.
Proof.
  unfold Layout.module_text, Layout.sequences.
  now rewrite imports_settled, !sequence_definitions_settled, body_settled.
Qed.

Lemma dependencies_settled :
  Layout.dependencies (map settled fs) = Layout.dependencies fs.
Proof.
  unfold Layout.dependencies. rewrite filter_map_settled by reflexivity.
  now apply map_settled.
Qed.

End Settled.

Lemma slots_after_settled fs : forall slots,
  (forall f, In f fs -> Layout.kind f <> simple -> Layout.name f <> "type") ->
  Layout.slots_after (Layout.slots_after slots fs) (map settled fs)
  = Layout.slots_after slots fs.
Proof.
  induction fs as [|f fs IH]; intros slots H.
  - destruct slots; reflexivity.
  - destruct slots as [|slot slots]; [reflexivity|]. simpl.
    rewrite effective_type_settled by (apply H; now left).
    rewrite renamed_idempotent, IH; [reflexivity|].
    intros g Hg. apply H. now right.
Qed.

(** X12.  Translating the same class a second time, with the field names
    the first translation left in [__slots__], gives the same text and the
    same dependencies and changes the names no more, when every field
    classifies and no array field is named [type]. *)
Theorem translate_again (msg_name : string)
    (slots slot_types : list string) (fs : list Layout.field) :
  Layout.classify_all slots slot_types = Ok fs ->
  (forall f, In f fs -> Layout.kind f <> simple -> Layout.name f <> "type") ->
  translate msg_name (fst (translate msg_name slots slot_types)) slot_types
  = translate msg_name slots slot_types.
Proof.
  intros H Ht. rewrite (translate_layout _ _ _ _ H). cbn [fst].
  rewrite (translate_layout _ _ _ _ (classify_all_settled _ _ _ H)).
  now rewrite slots_after_settled, module_text_settled, dependencies_settled.
Qed.

Lemma translate_again_witness :
  Layout.classify_all ["type"; "Header"; "data"]
    ["int32"; "std_msgs/Header"; "float32[3]"]
  = Ok [Layout.Field "type" "int32" simple 1 "T-Int32" "TASTE-BasicTypes"
          true;
        Layout.Field "Header" "std_msgs/Header" simple 1 "Header"
          "Header-Types" false;
        Layout.Field "data" "float32" fixed_length 3 "T-Float"
          "TASTE-ExtendedTypes" true] /\
  fst (translate "M" ["type"; "Header"; "data"]
         ["int32"; "std_msgs/Header"; "float32[3]"])
  = ["type-T-Int32"; "Header-field"; "data"] /\
  translate "M" ["type-T-Int32"; "Header-field"; "data"]
    ["int32"; "std_msgs/Header"; "float32[3]"]
  = translate "M" ["type"; "Header"; "data"]
      ["int32"; "std_msgs/Header"; "float32[3]"].
Proof.
  split; [reflexivity|]. split; [reflexivity|].
  apply (translate_again "M" ["type"; "Header"; "data"]
           ["int32"; "std_msgs/Header"; "float32[3]"] _ eq_refl).
  intros f [<-|[<-|[<-|[]]]] Hk; simpl in *; congruence.
Defined.

(** The condition on array fields is needed: an array named [type] is
    renamed with the name of its own sequence type, which is made from the
    field name. *)
Lemma translate_again_array_named_type :
  translate "M" (fst (translate "M" ["type"] ["int32[]"])) ["int32[]"]
  <> translate "M" ["type"] ["int32[]"].
Proof. vm_compute. discriminate. Qed.

(** * Further properties of [process_msg] and its collaborators *)

Lemma get_set_same {V} (d : Dict.t V) k v : Dict.get (Dict.set d k v) k = Ok v.
Proof.
  induction d as [|[k' v'] d IH]; simpl.
  - now rewrite String.eqb_refl.
  - destruct (String.eqb k' k) eqn:E; simpl; now rewrite E.
Qed.

Lemma get_set_other {V} (d : Dict.t V) k k' v :
  k' <> k -> Dict.get (Dict.set d k v) k' = Dict.get d k'.
Proof.
  intros H. induction d as [|[k0 v0] d IH]; simpl.
  - apply String.eqb_neq in H. rewrite String.eqb_sym in H. now rewrite H.
  - destruct (String.eqb_spec k0 k) as [->|Hk]; simpl.
    + apply String.eqb_neq in H. rewrite String.eqb_sym in H.
      now rewrite H.
    + now rewrite IH.
Qed.

Lemma same_but_slots_refl o : same_but_slots o o.
Proof. repeat split. apply extended_refl. Qed.

(** What [store_slots] does to the classes. *)
Lemma store_slots_frame w pkg nm new_slots obj :
  lookup_class w (pkg ++ ".msg") nm = Ok obj ->
  extended (__slots__ obj) new_slots ->
  let w' := store_slots w pkg nm new_slots in
  list_msgs w' = list_msgs w /\ rosmsg_search w' = rosmsg_search w /\
  forall module_name c,
    lookup_class w' module_name c = lookup_class w module_name c \/
    exists o o',
      lookup_class w module_name c = Ok o /\
      lookup_class w' module_name c = Ok o' /\ same_but_slots o o'.
Proof.
  unfold lookup_class, store_slots, mbind, res_bind. intros Hl He.
  destruct (Dict.get (modules w) (pkg ++ ".msg")) as [module|] eqn:Em;
    [|discriminate].
  rewrite Hl. cbn [list_msgs rosmsg_search modules].
  split; [reflexivity|]. split; [reflexivity|]. intros module_name c.
  destruct (string_dec module_name (pkg ++ ".msg")) as [->|Hm].
  - rewrite get_set_same, Em.
    destruct (string_dec c nm) as [->|Hc].
    + right. rewrite get_set_same, Hl. eexists _, _.
      split; [reflexivity|]. split; [reflexivity|]. now repeat split.
    + left. now rewrite get_set_other.
  - left. now rewrite get_set_other.
Qed.

(** X13.  What [process_msg] leaves of the ROS installation: the package
    lists and the search results are untouched; when it returns
    [(None, None)] nothing at all has changed; and every message class is
    either as it was or differs only by text appended to the names in its
    [__slots__], its [_type], [_slot_types] and [_full_text] being kept.
    This holds when [process_msg] raises as well. *)
Theorem process_msg_frame (w : world) (msg : string) :
  let w' := fst (process_msg w msg) in
  list_msgs w' = list_msgs w /\ rosmsg_search w' = rosmsg_search w /\
  (snd (process_msg w msg) = Ok None -> w' = w) /\
  forall module_name c,
    lookup_class w' module_name c = lookup_class w module_name c \/
    exists o o',
      lookup_class w module_name c = Ok o /\
      lookup_class w' module_name c = Ok o' /\ same_but_slots o o'.
Proof.
  assert (Hsame : forall r : res (option (string * list string)),
    list_msgs (fst (w, r)) = list_msgs w /\
    rosmsg_search (fst (w, r)) = rosmsg_search w /\
    (snd (w, r) = Ok None -> fst (w, r) = w) /\
    forall module_name c,
      lookup_class (fst (w, r)) module_name c = lookup_class w module_name c
      \/ exists o o',
           lookup_class w module_name c = Ok o /\
           lookup_class (fst (w, r)) module_name c = Ok o' /\
           same_but_slots o o')
    by (intros r; simpl; auto).
  unfold process_msg.
  destruct (get_message_package w msg) as [[[nm|] [pkg|]]|];
    try apply Hsame.
  unfold get_python_msg_module, get_message_dict.
  destruct (Dict.get (modules w) (pkg ++ ".msg")) as [module|] eqn:Em;
    [|apply Hsame].
  destruct (Dict.get module nm) as [obj|] eqn:Eo; [|apply Hsame].
  cbn [slots slot_types].
  assert (Hl : lookup_class w (pkg ++ ".msg") nm = Ok obj).
  { unfold lookup_class, mbind, res_bind. now rewrite Em. }
  pose proof (translate_extended nm (__slots__ obj) (_slot_types obj))
    as He.
  destruct (translate nm (__slots__ obj) (_slot_types obj))
    as [slots' [r|e]]; cbn [fst snd] in *;
    destruct (store_slots_frame w pkg nm slots' obj Hl He) as (H1 & H2 & H3);
    (split; [exact H1|]); (split; [exact H2|]);
    (split; [discriminate | exact H3]).
Qed.

(** X14.  [get_message_package] returns both names or none.  When it
    returns them for a name with a [/], the name is in the list of the
    messages of the package before the first [/], and the two results are
    the first two components of the name; for a name without [/], the
    search found exactly one message, and the results are the first two
    components of that message. *)
Theorem get_message_package_sound (w : world) (msg : string)
    (r : option string * option string) :
  get_message_package w msg = Ok r ->
  r = (None, None) \/
  exists pkg nm, r = (Some nm, Some pkg) /\
    (In "/"%char (chars msg) /\
     (exists msgs rest,
        list_msgs w pkg = Ok msgs /\ In msg msgs /\
        Py.split "/" msg = pkg :: nm :: rest)
     \/
     ~ In "/"%char (chars msg) /\
     (exists full rest,
        rosmsg_search w msg = [full] /\
        Py.split "/" full = pkg :: nm :: rest)).
Proof.
  unfold get_message_package, mbind, res_bind. intros H.
  destruct (Py.contains "/" msg) eqn:Ec.
  - apply contains_In in Ec.
    destruct (Py.split "/" msg) as [|pkg [|nm rest]] eqn:Es;
      try discriminate; cbn in H.
    + destruct (list_msgs w pkg) as [msgs|]; [|discriminate].
      destruct (Py.mem msg msgs); cbn in H; inversion H. now left.
    + destruct (list_msgs w pkg) as [msgs|] eqn:El; [|discriminate].
      destruct (Py.mem msg msgs) eqn:Em; cbn in H; inversion H;
        [|now left].
      right. exists pkg, nm. split; [reflexivity|]. left.
      split; [assumption|]. exists msgs, rest. apply mem_In in Em. auto.
  - apply contains_false in Ec.
    destruct (rosmsg_search w msg) as [|full [|more ms]] eqn:Er; cbn in H.
    + inversion H. now left.
    + destruct (Py.split "/" full) as [|pkg [|nm rest]] eqn:Es;
        try discriminate; cbn in H; inversion H.
      right. exists pkg, nm. split; [reflexivity|]. right.
      split; [assumption|]. now exists full, rest.
    + inversion H. now left.
Qed.

Lemma get_message_package_sound_witness :
  get_message_package cycle_ros "A" = Ok (Some "A", Some "p") /\
  ((Some "A", Some "p") = (None, None) \/
   exists pkg nm, (Some "A", Some "p") = (Some nm, Some pkg) /\
     (In "/"%char (chars "A") /\
      (exists msgs rest,
         list_msgs cycle_ros pkg = Ok msgs /\ In "A" msgs /\
         Py.split "/" "A" = pkg :: nm :: rest)
      \/
      ~ In "/"%char (chars "A") /\
      (exists full rest,
         rosmsg_search cycle_ros "A" = [full] /\
         Py.split "/" full = pkg :: nm :: rest))).
Proof.
  split; [reflexivity|].
  exact (get_message_package_sound cycle_ros "A" (Some "A", Some "p")
           eq_refl).
Defined.

(** X15.  From the request to the module text: for a name [pkg/Name] that
    the package lists, whose class is in the module [pkg.msg] and whose
    fields all classify, [process_msg] returns the module text of [Name],
    without the package, and the dependencies of the fields, and leaves the
    renamed field names in the [__slots__] of the class. *)
Theorem process_msg_qualified (w : world) (pkg nm : string)
    (msgs : list string) (module : Dict.t msg_class) (obj : msg_class)
    (fs : list Layout.field) :
  ~ In "/"%char (chars pkg) -> ~ In "/"%char (chars nm) ->
  list_msgs w pkg = Ok msgs -> In (pkg ++ "/" ++ nm) msgs ->
  Dict.get (modules w) (pkg ++ ".msg") = Ok module ->
  Dict.get module nm = Ok obj ->
  Layout.classify_all (__slots__ obj) (_slot_types obj) = Ok fs ->
  process_msg w (pkg ++ "/" ++ nm) =
  (store_slots w pkg nm (Layout.slots_after (__slots__ obj) fs),
   Ok (Some (Layout.module_text nm fs, Layout.dependencies fs))).
Proof.
  intros Hp Hn Hl Hin Hm Ho Hc.
  unfold process_msg, get_message_package.
  replace (Py.contains "/" (pkg ++ "/" ++ nm)) with true
    by (symmetry; apply contains_In, In_slash_middle).
  assert (Es : Py.split "/" (pkg ++ "/" ++ nm) = [pkg; nm])
    by now apply (split_pair "/" pkg nm).
  rewrite Es.
  unfold mbind, res_bind. cbn [Py.nth lookup list_lookup].
  rewrite Hl. apply mem_In in Hin. rewrite Hin. cbn [negb].
  unfold get_python_msg_module, get_message_dict. rewrite Hm, Ho.
  cbn [slots slot_types]. rewrite (translate_layout _ _ _ _ Hc).
  reflexivity.
Qed.

Lemma process_msg_qualified_witness :
  ~ In "/"%char (chars "p") /\ ~ In "/"%char (chars "M") /\
  process_msg typed_ros ("p" ++ "/" ++ "M") =
  (store_slots typed_ros "p" "M" ["type-T-Int32"; "n"],
   Ok (Some
         ("M-Types DEFINITIONS ::=" ++ nl ++ "BEGIN" ++ nl
          ++ "IMPORTS T-Int32, T-UInt32 FROM TASTE-BasicTypes ;" ++ nl
          ++ "M::=" ++ nl ++ "SEQUENCE" ++ nl ++ "{" ++ nl
          ++ tab ++ "type-T-Int32" ++ tab ++ "T-Int32" ++ "," ++ nl
          ++ tab ++ "n" ++ tab ++ "T-UInt32" ++ nl ++ "}" ++ nl ++ "END",
          []))).
Proof.
  assert (H1 : ~ In "/"%char (chars "p")) by not_in_chars.
  assert (H2 : ~ In "/"%char (chars "M")) by not_in_chars.
  split; [exact H1|]. split; [exact H2|].
  apply (process_msg_qualified typed_ros "p" "M" ["p/M"]
           [("M", MsgClass "p/M" ["type"; "n"] ["int32"; "uint32"] "")]
           (MsgClass "p/M" ["type"; "n"] ["int32"; "uint32"] "")
           [Layout.Field "type" "int32" simple 1 "T-Int32"
              "TASTE-BasicTypes" true;
            Layout.Field "n" "uint32" simple 1 "T-UInt32"
              "TASTE-BasicTypes" true]
           H1 H2 eq_refl (or_introl eq_refl) eq_refl eq_refl eq_refl).
Defined.

(** * Further properties of the loop of [main] *)

(** X16.  The loop treats the names first in, first out: along a run, the
    generated names followed by the pending ones only ever grow at the
    end, so no pending name is dropped or overtaken, and the requested
    names are translated first, in the order given. *)
Theorem queue_grows_at_end {W : Type}
    (process : W -> string -> W * res (option (string * list string)))
    (out_dir : string) (st0 st : state W) :
  steps process out_dir st0 st ->
  exists new,
    (generated_msgs st ++ messages st
     = (generated_msgs st0 ++ messages st0) ++ new)%list.
Proof.
  intros Hs. induction Hs as [|st1 st2 Hs [new IH] Hstep].
  - exists []. now rewrite app_nil_r.
  - destruct (step_appends _ _ _ _ Hstep)
      as (msg & rest & new' & Em & -> & -> & _).
    exists (new ++ new')%list. rewrite Em in IH.
    rewrite (app_assoc (generated_msgs st0 ++ messages st0) new new').
    rewrite <- IH, <- !app_assoc. reflexivity.
Qed.

Lemma queue_grows_at_end_witness :
  steps process_msg "/tmp/" (init cycle_ros ["p/A"])
    (fst (main_step process_msg "/tmp/" (init cycle_ros ["p/A"]))) /\
  exists new,
    (generated_msgs
       (fst (main_step process_msg "/tmp/" (init cycle_ros ["p/A"])))
     ++ messages
          (fst (main_step process_msg "/tmp/" (init cycle_ros ["p/A"])))
     = ([] ++ ["p/A"]) ++ new)%list.
Proof.
  assert (H : steps process_msg "/tmp/" (init cycle_ros ["p/A"])
                (fst (main_step process_msg "/tmp/"
                        (init cycle_ros ["p/A"])))).
  { eapply steps_next; [apply steps_refl|]. reflexivity. }
  split; [exact H|].
  exact (queue_grows_at_end process_msg "/tmp/" _ _ H).
Defined.

Lemma scan_deps_qualified slot_types : forall a a',
  scan_slot_types slot_types a = Ok a' ->
  forall d, In d (msg_deps a') ->
    In d (msg_deps a) \/
    Py.contains "/" d = true /\ Py.mem d ros_primitive_type = false.
Proof.
  induction slot_types as [|st sts IH]; intros a a' H d Hd; simpl in H.
  - inversion H; subst. now left.
  - unfold mbind, res_bind in H.
    destruct (find_field_type st) as [[[b k] n]|]; [|discriminate].
    destruct (find_ASN1_type b) as [[[ty l] p]|] eqn:E; [|discriminate].
    destruct (IH _ _ H d Hd) as [Hin|Hq]; [|now right].
    cbn [msg_deps] in Hin. destruct p; cbn [negb] in Hin; [now left|].
    apply in_app_or in Hin as [Hin|[->|[]]]; [now left|]. right.
    apply find_ASN1_type_not_primitive in E as (Hm & _ & pkg & rest & Es).
    split; [|assumption].
    destruct (Py.contains "/" d) eqn:Ec; [reflexivity|].
    apply contains_false in Ec. rewrite split_absent in Es by assumption.
    discriminate.
Qed.

(** X17.  Every dependency a translation returns is a name with a [/] that
    is not a primitive type: the loop of [main] hands it to [process_msg],
    where it is looked up in the package it names and never searched for
    by its bare name. *)
Theorem dependencies_are_qualified (msg_name : string)
    (slots slot_types slots' : list string) (text : string)
    (deps : list string) :
  translate msg_name slots slot_types = (slots', Ok (text, deps)) ->
  forall d, In d deps ->
    Py.contains "/" d = true /\ Py.mem d ros_primitive_type = false.
Proof.
  unfold translate. intros H d Hd.
  destruct (scan_slot_types slot_types scan0) as [a|] eqn:Ea;
    [|discriminate].
  destruct (_ ← emit_fixed _ _ _ _; _) as [st|]; [|discriminate].
  destruct (emit_body _ _ _ _ _ _) as [s' [t|e]]; [|discriminate].
  inversion H; subst.
  destruct (scan_deps_qualified _ _ _ Ea d Hd) as [[]|Hq]. exact Hq.
Qed.

Lemma dependencies_are_qualified_witness :
  translate "A" ["to_b"] ["p/B"] = (["to_b"], Ok (module_A, ["p/B"])) /\
  forall d, In d ["p/B"] ->
    Py.contains "/" d = true /\ Py.mem d ros_primitive_type = false.
Proof.
  split; [reflexivity|].
  exact (dependencies_are_qualified "A" ["to_b"] ["p/B"] ["to_b"] module_A
           ["p/B"] eq_refl).
Defined.

(** * A bare name and the same name with its package *)

Lemma get_message_package_listed w pkg nm msgs :
  ~ In "/"%char (chars pkg) -> ~ In "/"%char (chars nm) ->
  list_msgs w pkg = Ok msgs -> In (pkg ++ "/" ++ nm) msgs ->
  get_message_package w (pkg ++ "/" ++ nm) = Ok (Some nm, Some pkg).
Proof.
  intros Hp Hn Hl Hin. unfold get_message_package.
  replace (Py.contains "/" (pkg ++ "/" ++ nm)) with true
    by (symmetry; apply contains_In, In_slash_middle).
  assert (Es : Py.split "/" (pkg ++ "/" ++ nm) = [pkg; nm])
    by now apply (split_pair "/" pkg nm).
  rewrite Es. unfold mbind, res_bind. cbn [Py.nth lookup list_lookup].
  rewrite Hl. apply mem_In in Hin. now rewrite Hin.
Qed.

Lemma get_message_package_searched w pkg nm :
  ~ In "/"%char (chars pkg) -> ~ In "/"%char (chars nm) ->
  rosmsg_search w nm = [pkg ++ "/" ++ nm] ->
  get_message_package w nm = Ok (Some nm, Some pkg).
Proof.
  intros Hp Hn Hs. unfold get_message_package.
  replace (Py.contains "/" nm) with false
    by (symmetry; now apply contains_false).
  rewrite Hs. cbn [length Nat.ltb Nat.leb Nat.eqb].
  assert (Es : Py.split "/" (pkg ++ "/" ++ nm) = [pkg; nm])
    by now apply (split_pair "/" pkg nm).
  unfold mbind, res_bind. cbn [Py.nth lookup list_lookup].
  now rewrite Es.
Qed.

(** X18.  A bare name that the search finds once is translated as the
    name with its package is: when the only message called [Name] is
    [pkg/Name] and the package lists it, [process_msg] returns the same
    for [Name] and for [pkg/Name], and changes the same class in the same
    way. *)
Theorem process_msg_bare_name (w : world) (pkg nm : string)
    (msgs : list string) :
  ~ In "/"%char (chars pkg) -> ~ In "/"%char (chars nm) ->
  rosmsg_search w nm = [pkg ++ "/" ++ nm] ->
  list_msgs w pkg = Ok msgs -> In (pkg ++ "/" ++ nm) msgs ->
  process_msg w nm = process_msg w (pkg ++ "/" ++ nm).
Proof.
  intros Hp Hn Hs Hl Hin. unfold process_msg.
  rewrite (get_message_package_searched w pkg nm Hp Hn Hs).
  rewrite (get_message_package_listed w pkg nm msgs Hp Hn Hl Hin).
  reflexivity.
Qed.

Lemma process_msg_bare_name_witness :
  ~ In "/"%char (chars "p") /\ ~ In "/"%char (chars "A") /\
  process_msg cycle_ros "A" = process_msg cycle_ros ("p" ++ "/" ++ "A").
Proof.
  assert (H1 : ~ In "/"%char (chars "p")) by not_in_chars.
  assert (H2 : ~ In "/"%char (chars "A")) by not_in_chars.
  split; [exact H1|]. split; [exact H2|].
  exact (process_msg_bare_name cycle_ros "p" "A" ["p/A"; "p/B"] H1 H2
           eq_refl eq_refl (or_introl eq_refl)).
Defined.
